(** * The company model of jobly (models/company.js)

    A shallow embedding of the class [Company] and of the two collaborators
    it calls: the query executor [db.query] and the partial-update compiler
    [sqlForPartialUpdate].

    - A JavaScript value that may be [undefined] is an [option]; numbers are
      integers ([Z]); strings are sequences of Rocq characters, and case
      folding covers the letters A to Z.
    - The store is the [companies] table, a list of rows in physical order,
      together with the list of the statements issued so far.  Every call of
      [db.query] in the source is a [statement]; [exec] gives the meaning of
      each statement on the table.
    - The values of the store are those of its column types: a text holds
      no NUL character and an INTEGER lies between -2^31 and 2^31 - 1; a
      bind value outside the type of its column makes the store reject the
      statement.  Patterns and case folding are those of the store for
      texts of ASCII characters.
    - An [async] function is a computation in the monad [M]: it reads and
      writes the store and either returns or throws. *)

From Stdlib Require Import List String Ascii ZArith Lia Bool Arith.
From Stdlib Require Import DecimalString.
From Stdlib Require Import Permutation Sorting.Sorted.
Import ListNotations.

Local Open Scope string_scope.
Local Open Scope Z_scope.
Local Open Scope list_scope.

(** ** Data model *)

(** A row of [companies], with the names of the record the module returns:
    [num_employees AS "numEmployees"], [logo_url AS "logoUrl"].  The last
    two columns are nullable. *)
Record company : Type := {
  handle : string;
  name : string;
  description : string;
  numEmployees : option Z;
  logoUrl : option string
}.

Definition table : Type := list company.

(** A bind value, or the value of a property of the object given to
    [update]. *)
Inductive value : Type :=
| VNull
| VNum (n : Z)
| VStr (s : string).

(** The object given to [update]: its own keys in insertion order. *)
Definition fields : Type := list (string * value).

(** The object given to [findAll]; an absent property reads [undefined]. *)
Module Query.
Record t : Type := {
  name : option string;
  minEmployees : option Z;
  maxEmployees : option Z
}.
End Query.

Inductive error : Type :=
| BadRequestError (message : string)
| NotFoundError (message : string)
| DatabaseError.

Inductive result (A : Type) : Type :=
| Ok (a : A)
| Throw (e : error).

Arguments Ok {A} a.
Arguments Throw {A} e.

(** ** JavaScript operators used by [findAll] *)

(** [Boolean(s)] for a string or [undefined]: only the empty string and
    [undefined] are falsy. *)
Definition truthy_string (s : option string) : bool :=
  match s with
  | Some s => negb (s =? EmptyString)%string
  | None => false
  end.

(** [Boolean(n)] for a number or [undefined]: only 0 and [undefined] are
    falsy. *)
Definition truthy_number (n : option Z) : bool :=
  match n with
  | Some n => negb (n =? 0)%Z
  | None => false
  end.

(** [Number(a) > Number(b)]: [Number(undefined)] is NaN, and a comparison
    with NaN is false. *)
Definition number_gt (a b : option Z) : bool :=
  match a, b with
  | Some a, Some b => (b <? a)%Z
  | _, _ => false
  end.

(** [n || d] for a number or [undefined] on the left. *)
Definition or_number (n : option Z) (d : Z) : Z :=
  match n with
  | Some n => if (n =? 0)%Z then d else n
  | None => d
  end.

(** [`${s}`] for a string or [undefined]. *)
Definition template (s : option string) : string :=
  match s with
  | Some s => s
  | None => "undefined"
  end.

(** ** The store: LIKE patterns *)

Inductive pat_item : Type :=
| PAny                (* % : any sequence of characters *)
| POne                (* _ : any single character *)
| PChar (c : ascii).  (* a character, written as itself or after \ *)

(** A pattern that ends in the escape character is an error of the store. *)
Fixpoint parse_pattern (p : string) : option (list pat_item) :=
  match p with
  | EmptyString => Some []
  | String c p' =>
      if (c =? "%")%char then option_map (cons PAny) (parse_pattern p')
      else if (c =? "_")%char then option_map (cons POne) (parse_pattern p')
      else if (c =? "\")%char then
        match p' with
        | EmptyString => None
        | String e p'' => option_map (cons (PChar e)) (parse_pattern p'')
        end
      else option_map (cons (PChar c)) (parse_pattern p')
  end.

Fixpoint like_items (p : list pat_item) (s : string) : bool :=
  match p with
  | [] => match s with EmptyString => true | String _ _ => false end
  | PAny :: p' =>
      (fix skip (s : string) : bool :=
         like_items p' s ||
         match s with
         | EmptyString => false
         | String _ s' => skip s'
         end) s
  | POne :: p' =>
      match s with
      | EmptyString => false
      | String _ s' => like_items p' s'
      end
  | PChar c :: p' =>
      match s with
      | EmptyString => false
      | String d s' => (c =? d)%char && like_items p' s'
      end
  end.

Definition lower_char (c : ascii) : ascii :=
  let n := N_of_ascii c in
  if ((65 <=? n) && (n <=? 90))%N then ascii_of_N (n + 32) else c.

Fixpoint lower (s : string) : string :=
  match s with
  | EmptyString => EmptyString
  | String c s' => String (lower_char c) (lower s')
  end.

(** [s ILIKE p]: LIKE on the lower-cased pattern and text. *)
Definition ilike (p s : string) : option bool :=
  option_map (fun items => like_items items (lower s)) (parse_pattern (lower p)).

(** ** The store: ORDER BY name *)

Fixpoint insert_by_name (c : company) (l : list company) : list company :=
  match l with
  | [] => [c]
  | x :: l' =>
      if (name c <=? name x)%string then c :: l else x :: insert_by_name c l'
  end.

(** Names are compared character by character, by character code; rows
    with equal names keep their physical order. *)
Fixpoint order_by_name (l : list company) : list company :=
  match l with
  | [] => []
  | c :: l' => insert_by_name c (order_by_name l')
  end.

(** ** The store: statements *)

(** The statements the module issues, one constructor per call of
    [db.query], with its bind values.  In [UpdateCompany] the SET clause is
    the list of its [column = $n] fragments and [handleVarIdx] is the
    number of the parameter of the WHERE clause. *)
Inductive statement : Type :=
(* SELECT handle FROM companies WHERE handle = $1 *)
| SelectHandle (h : string)
(* INSERT INTO companies (handle, name, description, num_employees, logo_url)
   VALUES ($1, $2, $3, $4, $5) RETURNING the five columns *)
| InsertCompany (c : company)
(* SELECT the five columns FROM companies ORDER BY name *)
| SelectAll
(* ... WHERE name ILIKE $1 AND num_employees >= $2 AND num_employees <= $3
   ORDER BY name *)
| SelectByNameAndEmployeeNum (pattern : string) (lo hi : Z)
(* ... WHERE name ILIKE $1 ORDER BY name *)
| SelectByName (pattern : string)
(* ... WHERE num_employees >= $1 AND num_employees <= $2 ORDER BY name *)
| SelectByEmployeeNum (lo hi : Z)
(* SELECT the five columns FROM companies WHERE handle = $1 *)
| SelectCompany (h : string)
(* UPDATE companies SET setCols WHERE handle = $handleVarIdx
   RETURNING the five columns *)
| UpdateCompany (setCols : list (string * nat)) (handleVarIdx : nat)
                (params : list value)
(* DELETE FROM companies WHERE handle = $1 RETURNING handle *)
| DeleteCompany (h : string).

(** A value of the type INTEGER. *)
Definition in_integer (n : Z) : bool :=
  ((-2147483648 <=? n) && (n <=? 2147483647))%Z.

(** A value of the type TEXT: no character is NUL. *)
Fixpoint storable_text (s : string) : bool :=
  match s with
  | EmptyString => true
  | String c s' => negb (c =? Ascii.zero)%char && storable_text s'
  end.

(** Modelled from the spec: the rows the table accepts, whose schema is not
    part of the module: the texts are values of TEXT, and [numEmployees],
    when it is present, is a value of INTEGER and is >= 0. *)
Definition row_ok (c : company) : bool :=
  storable_text (handle c) && storable_text (name c)
  && storable_text (description c)
  && match numEmployees c with
     | Some n => (0 <=? n)%Z && in_integer n
     | None => true
     end
  && match logoUrl c with
     | Some s => storable_text s
     | None => true
     end.

Definition has_handle (h : string) (c : company) : bool := (handle c =? h)%string.

(** [num_employees >= lo AND num_employees <= hi]; a comparison with NULL
    is not true. *)
Definition employees_between (lo hi : Z) (c : company) : bool :=
  match numEmployees c with
  | Some n => ((lo <=? n) && (n <=? hi))%Z
  | None => false
  end.

(** The column written by one fragment of a SET clause, with its value at
    the type of the column. *)
Inductive assignment : Type :=
| SetHandle (s : string)
| SetName (s : string)
| SetDescription (s : string)
| SetNumEmployees (n : option Z)
| SetLogoUrl (s : option string).

(** The decimal notation of an integer, as the store reads it: blanks, a
    sign, digits, blanks. *)
Definition is_blank (c : ascii) : bool :=
  let n := N_of_ascii c in ((n =? 32) || ((9 <=? n) && (n <=? 13)))%N.

Fixpoint skip_blanks (s : string) : string :=
  match s with
  | EmptyString => EmptyString
  | String c s' => if is_blank c then skip_blanks s' else s
  end.

Definition digit (c : ascii) : option Z :=
  let n := N_of_ascii c in
  if ((48 <=? n) && (n <=? 57))%N then Some (Z.of_N n - 48) else None.

Fixpoint read_digits (acc : Z) (s : string) : Z * string :=
  match s with
  | EmptyString => (acc, EmptyString)
  | String c s' =>
      match digit c with
      | Some k => read_digits (10 * acc + k) s'
      | None => (acc, s)
      end
  end.

Definition parse_integer (s : string) : option Z :=
  let s1 := skip_blanks s in
  let signed :=
    match s1 with
    | String c r =>
        if (c =? "-")%char then (true, r)
        else if (c =? "+")%char then (false, r)
        else (false, s1)
    | EmptyString => (false, s1)
    end in
  match snd signed with
  | EmptyString => None
  | String c _ =>
      match digit c with
      | None => None
      | Some _ =>
          let read := read_digits 0 (snd signed) in
          match skip_blanks (snd read) with
          | EmptyString => Some (if fst signed then - fst read else fst read)
          | String _ _ => None
          end
      end
  end.

(** A bind value read at the type TEXT: a number is sent as its decimal
    notation. *)
Definition bind_text (v : value) : option string :=
  match v with
  | VNull => None
  | VNum n => Some (NilZero.string_of_int (Z.to_int n))
  | VStr s => if storable_text s then Some s else None
  end.

(** A bind value read at the type INTEGER: a text is read as a decimal
    notation; a value outside the type is rejected. *)
Definition bind_integer (v : value) : option Z :=
  match v with
  | VNull => None
  | VNum n => if in_integer n then Some n else None
  | VStr s =>
      match parse_integer s with
      | Some n => if in_integer n then Some n else None
      | None => None
      end
  end.

(** A fragment [column = $n], as the compiler writes it: the column is an
    identifier, which the store reads letter case apart, and the bind value
    is read at the type of the column; the three text columns [handle],
    [name] and [description] take no NULL.  A column text that is not the
    name of a column (an unknown name, or a text with quotes, blanks or
    further SQL) is outside the model: such a fragment does not bind. *)
Definition bind_assignment (column : string) (v : value) : option assignment :=
  let column := lower column in
  if (column =? "handle")%string then option_map SetHandle (bind_text v)
  else if (column =? "name")%string then option_map SetName (bind_text v)
  else if (column =? "description")%string then
    option_map SetDescription (bind_text v)
  else if (column =? "num_employees")%string then
    match v with
    | VNull => Some (SetNumEmployees None)
    | _ => option_map (fun n => SetNumEmployees (Some n)) (bind_integer v)
    end
  else if (column =? "logo_url")%string then
    match v with
    | VNull => Some (SetLogoUrl None)
    | _ => option_map (fun s => SetLogoUrl (Some s)) (bind_text v)
    end
  else None.

Definition assign (a : assignment) (c : company) : company :=
  match a with
  | SetHandle s =>
      {| handle := s; name := name c; description := description c;
         numEmployees := numEmployees c; logoUrl := logoUrl c |}
  | SetName s =>
      {| handle := handle c; name := s; description := description c;
         numEmployees := numEmployees c; logoUrl := logoUrl c |}
  | SetDescription s =>
      {| handle := handle c; name := name c; description := s;
         numEmployees := numEmployees c; logoUrl := logoUrl c |}
  | SetNumEmployees n =>
      {| handle := handle c; name := name c; description := description c;
         numEmployees := n; logoUrl := logoUrl c |}
  | SetLogoUrl s =>
      {| handle := handle c; name := name c; description := description c;
         numEmployees := numEmployees c; logoUrl := s |}
  end.

(** The bind value [$n]; parameters are numbered from 1. *)
Definition param (params : list value) (n : nat) : option value :=
  match n with
  | O => None
  | S k => nth_error params k
  end.

Fixpoint bind_set (setCols : list (string * nat)) (params : list value)
  : option (list assignment) :=
  match setCols with
  | [] => Some []
  | (column, n) :: rest =>
      match param params n with
      | None => None
      | Some v =>
          match bind_assignment column v, bind_set rest params with
          | Some a, Some l => Some (a :: l)
          | _, _ => None
          end
      end
  end.

Fixpoint distinct (l : list string) : bool :=
  match l with
  | [] => true
  | x :: l' => negb (existsb (String.eqb x) l') && distinct l'
  end.

Definition apply_set (l : list assignment) (c : company) : company :=
  fold_left (fun c a => assign a c) l c.

(** The meaning of a statement on the table: the rows it returns and the
    table it leaves, or [None] when the store rejects it.

    - SELECT with bounds: the bounds are bound to an INTEGER column, so
      both are values of INTEGER.
    - INSERT: the primary key [handle] is fresh and the table accepts the
      row.
    - UPDATE: no column is assigned twice, every fragment binds, the rows
      whose handle equals [$handleVarIdx] are rewritten; the table accepts
      the new rows and the primary key stays unique.
    - DELETE: the rows with the handle are removed and returned. *)
Definition exec (s : statement) (t : table) : option (list company * table) :=
  match s with
  | SelectHandle h => Some (filter (has_handle h) t, t)
  | InsertCompany c =>
      if existsb (has_handle (handle c)) t then None
      else if row_ok c then Some ([c], t ++ [c])
      else None
  | SelectAll => Some (order_by_name t, t)
  | SelectByNameAndEmployeeNum pattern lo hi =>
      if negb (in_integer lo && in_integer hi) then None
      else
        match parse_pattern (lower pattern) with
        | None => None
        | Some items =>
            Some (order_by_name
                    (filter (fun c => like_items items (lower (name c))
                                      && employees_between lo hi c) t), t)
        end
  | SelectByName pattern =>
      match parse_pattern (lower pattern) with
      | None => None
      | Some items =>
          Some (order_by_name
                  (filter (fun c => like_items items (lower (name c))) t), t)
      end
  | SelectByEmployeeNum lo hi =>
      if negb (in_integer lo && in_integer hi) then None
      else Some (order_by_name (filter (employees_between lo hi) t), t)
  | SelectCompany h => Some (filter (has_handle h) t, t)
  | UpdateCompany setCols handleVarIdx params =>
      if negb (distinct (map fst setCols)) then None
      else
        match bind_set setCols params, param params handleVarIdx with
        | Some l, Some (VStr h) =>
            let t' := map (fun c => if has_handle h c then apply_set l c else c) t in
            let rows := map (apply_set l) (filter (has_handle h) t) in
            if forallb row_ok rows && distinct (map handle t')
            then Some (rows, t')
            else None
        | _, _ => None
        end
  | DeleteCompany h =>
      Some (filter (has_handle h) t, filter (fun c => negb (has_handle h c)) t)
  end.

(** ** The monad of the module's functions *)

Record db : Type := {
  companies : table;
  issued : list statement
}.

Definition M (A : Type) : Type := db -> result A * db.

Definition ret {A : Type} (a : A) : M A := fun d => (Ok a, d).

Definition throw {A : Type} (e : error) : M A := fun d => (Throw e, d).

Definition bind {A B : Type} (m : M A) (k : A -> M B) : M B :=
  fun d =>
    match m d with
    | (Ok a, d') => k a d'
    | (Throw e, d') => (Throw e, d')
    end.

Notation "x <- m ;; k" := (bind m (fun x => k))
  (at level 61, m at next level, right associativity).

(** [await db.query(...)] for a select list of the five columns of a
    company: the statement is recorded, then run. *)
Definition query (s : statement) : M (list company) :=
  fun d =>
    let log := issued d ++ [s] in
    match exec s (companies d) with
    | Some (rows, t') => (Ok rows, {| companies := t'; issued := log |})
    | None => (Throw DatabaseError, {| companies := companies d; issued := log |})
    end.

(** [await db.query(...)] for the select list [handle]. *)
Definition query_handle (s : statement) : M (list string) :=
  rows <- query s ;; ret (map handle rows).

(** A function that does not touch the store. *)
Definition lift {A : Type} (r : result A) : M A := fun d => (r, d).

(** ** The partial-update compiler *)

Definition column_of (jsToSql : list (string * string)) (key : string) : string :=
  match find (fun p => (fst p =? key)%string) jsToSql with
  | Some p => snd p
  | None => key
  end.

Fixpoint fragments (jsToSql : list (string * string)) (keys : list string)
  (n : nat) : list (string * nat) :=
  match keys with
  | [] => []
  | key :: keys' => (column_of jsToSql key, n) :: fragments jsToSql keys' (S n)
  end.

(** Modelled from the spec: [sqlForPartialUpdate] of helpers/sql.js, which is
    not part of the module.  It produces one [column = $n] fragment per
    provided field, numbered from 1, with the alias of the field if it has
    one and the name of the field otherwise, and the values in the same
    order; it fails with a BadRequest error (whose message the spec leaves
    open) when no field is provided. *)
Definition sqlForPartialUpdate (dataToUpdate : fields)
  (jsToSql : list (string * string))
  : result (list (string * nat) * list value) :=
  match dataToUpdate with
  | [] => Throw (BadRequestError "No data")
  | _ :: _ =>
      Ok (fragments jsToSql (map fst dataToUpdate) 1, map snd dataToUpdate)
  end.

(** ** class Company *)

Module Company.

(** [rows[0]] is [undefined] when no row came back. *)
Definition create (data : company) : M (option company) :=
  duplicateCheck <- query_handle (SelectHandle (handle data)) ;;
  match duplicateCheck with
  | _ :: _ =>
      throw (BadRequestError ("Duplicate company: " ++ handle data)%string)
  | [] =>
      rows <- query (InsertCompany data) ;;
      ret (hd_error rows)
  end.

Definition findAllByNameAndEmployeeNum (name : option string)
  (minEmployees maxEmployees : Z) : M (list company) :=
  query (SelectByNameAndEmployeeNum ("%" ++ template name ++ "%")%string
           minEmployees maxEmployees).

Definition findAllByName (name : option string) : M (list company) :=
  query (SelectByName ("%" ++ template name ++ "%")%string).

Definition findAllByEmployeeNum (minEmployees maxEmployees : Z)
  : M (list company) :=
  query (SelectByEmployeeNum minEmployees maxEmployees).

Definition findAll (q : Query.t) : M (list company) :=
  let name := Query.name q in
  let minEmployees := Query.minEmployees q in
  let maxEmployees := Query.maxEmployees q in
  if number_gt minEmployees maxEmployees then
    throw (BadRequestError "minEmployees cannot be greater than maxEmployees")
  else if truthy_string name
          && (truthy_number minEmployees || truthy_number maxEmployees) then
    findAllByNameAndEmployeeNum name
      (or_number minEmployees 0) (or_number maxEmployees 1000000)
  else if negb (truthy_string name)
          && (truthy_number minEmployees || truthy_number maxEmployees) then
    findAllByEmployeeNum
      (or_number minEmployees 0) (or_number maxEmployees 1000000)
  else if truthy_string name
          && negb (truthy_number minEmployees && truthy_number maxEmployees) then
    findAllByName name
  else
    query SelectAll.

Definition get (h : string) : M company :=
  rows <- query (SelectCompany h) ;;
  match rows with
  | [] => throw (NotFoundError ("No company: " ++ h)%string)
  | company :: _ => ret company
  end.

Definition update (h : string) (data : fields) : M company :=
  compiled <- lift (sqlForPartialUpdate data
                      [("numEmployees", "num_employees");
                       ("logoUrl", "logo_url")]) ;;
  let setCols := fst compiled in
  let values := snd compiled in
  let handleVarIdx := (List.length values + 1)%nat in
  rows <- query (UpdateCompany setCols handleVarIdx (values ++ [VStr h])) ;;
  match rows with
  | [] => throw (NotFoundError ("No company: " ++ h)%string)
  | company :: _ => ret company
  end.

Definition remove (h : string) : M unit :=
  rows <- query_handle (DeleteCompany h) ;;
  match rows with
  | [] => throw (NotFoundError ("No company: " ++ h)%string)
  | _ :: _ => ret tt
  end.

End Company.

(** ** Sample data *)

Definition acme : company :=
  {| handle := "acme"; name := "Acme Network"; description := "Anvils";
     numEmployees := Some 42; logoUrl := None |}.

Definition bolt : company :=
  {| handle := "bolt"; name := "Bolt Internet Co"; description := "Fasteners";
     numEmployees := None; logoUrl := Some "http://bolt.img" |}.

Definition cask : company :=
  {| handle := "cask"; name := "Cask Software LLC"; description := "Barrels";
     numEmployees := Some 2000000; logoUrl := None |}.

Definition sample : db := {| companies := [cask; acme; bolt]; issued := [] |}.

Definition q (n : option string) (lo hi : option Z) : Query.t :=
  {| Query.name := n; Query.minEmployees := lo; Query.maxEmployees := hi |}.


Definition dune : company :=
  {| handle := "dune"; name := "Dune"; description := "Sand";
     numEmployees := Some 0; logoUrl := None |}.

(** ** Vocabulary of the properties *)

(** No character of [s] is special in a LIKE pattern. *)
Fixpoint literal (s : string) : bool :=
  match s with
  | EmptyString => true
  | String c s' =>
      negb ((c =? "%")%char || (c =? "_")%char || (c =? "\")%char)
      && literal s'
  end.

(** [n] occurs in [s] as a substring, letter case apart. *)
Definition contains_ci (n s : string) : Prop :=
  exists pre post, lower s = (pre ++ lower n ++ post)%string.

(** The pattern items of a string without special characters. *)
Definition chars (s : string) : list pat_item :=
  map PChar (list_ascii_of_string s).


(** The name of [c] matches the pattern that findAll builds from [n]. *)
Definition matches_filter (n : string) (c : company) : bool :=
  match ilike ("%" ++ n ++ "%") (name c) with
  | Some b => b
  | None => false
  end.

(** [numEmployees] is present and lies in [[lo, hi]]. *)
Definition employees_in (lo hi : Z) (c : company) : Prop :=
  exists k, numEmployees c = Some k /\ lo <= k <= hi.

(** The store after a statement that leaves the table as it is. *)
Definition logged (d : db) (s : statement) : db :=
  {| companies := companies d; issued := issued d ++ [s] |}.

(** The aliases that [update] gives to the compiler. *)
Definition jsToSql : list (string * string) :=
  [("numEmployees", "num_employees"); ("logoUrl", "logo_url")].

(** The property [key] of a company record; a property the record does not
    have reads as null. *)
Definition field (key : string) (c : company) : value :=
  if (key =? "handle")%string then VStr (handle c)
  else if (key =? "name")%string then VStr (name c)
  else if (key =? "description")%string then VStr (description c)
  else if (key =? "numEmployees")%string then
    match numEmployees c with Some n => VNum n | None => VNull end
  else if (key =? "logoUrl")%string then
    match logoUrl c with Some s => VStr s | None => VNull end
  else VNull.

(** [key] is one of name, description, numEmployees and logoUrl, and [v] is
    a value of that field in the data model: a text for the first two, an
    integer >= 0 of the type INTEGER or null for numEmployees, a text or
    null for logoUrl. *)
Definition field_accepts (key : string) (v : value) : bool :=
  if (key =? "name")%string then
    match v with VStr s => storable_text s | _ => false end
  else if (key =? "description")%string then
    match v with VStr s => storable_text s | _ => false end
  else if (key =? "numEmployees")%string then
    match v with
    | VNull => true
    | VNum n => (0 <=? n)%Z && in_integer n
    | VStr _ => false
    end
  else if (key =? "logoUrl")%string then
    match v with VNull => true | VStr s => storable_text s | VNum _ => false end
  else false.

(** The keys that the documentation of [update] lists. *)
Definition documented_key (key : string) : bool :=
  (key =? "name")%string || (key =? "description")%string
  || (key =? "numEmployees")%string || (key =? "logoUrl")%string.

(** A text of ASCII characters, NUL apart. *)
Fixpoint ascii_text (s : string) : bool :=
  match s with
  | EmptyString => true
  | String c s' =>
      let n := N_of_ascii c in
      ((1 <=? n) && (n <=? 127))%N && ascii_text s'
  end.

(** The names of the table are texts of ASCII characters. *)
Definition ascii_names (d : db) : Prop :=
  Forall (fun c => ascii_text (name c) = true) (companies d).

(** A name filter the store can read: a text, or no name. *)
Definition storable_name (n : option string) : bool :=
  match n with
  | Some s => storable_text s
  | None => true
  end.

(** The bounds that findAll gives to a query are values of INTEGER. *)
Definition bounds_in_integer (lo hi : option Z) : bool :=
  in_integer (or_number lo 0) && in_integer (or_number hi 1000000).

(** A nonempty partial field map of a company. *)
Definition partial_fields (data : fields) : Prop :=
  data <> [] /\
  NoDup (map fst data) /\
  Forall (fun kv => field_accepts (fst kv) (snd kv) = true) data.

(** The assignments that the fields of [data] bind to, in order. *)
Fixpoint bind_fields (data : fields) : option (list assignment) :=
  match data with
  | [] => Some []
  | (key, v) :: rest =>
      match bind_assignment (column_of jsToSql key) v, bind_fields rest with
      | Some a, Some l => Some (a :: l)
      | _, _ => None
      end
  end.

(** Calls of the module, run one after the other on a store; what a call
    returns or throws is dropped. *)
Inductive operation : Type :=
| Create (data : company)
| FindAll (qry : Query.t)
| Get (h : string)
| Update (h : string) (data : fields)
| Remove (h : string).

Definition step (o : operation) (d : db) : db :=
  match o with
  | Create data => snd (Company.create data d)
  | FindAll qry => snd (Company.findAll qry d)
  | Get h => snd (Company.get h d)
  | Update h data => snd (Company.update h data d)
  | Remove h => snd (Company.remove h d)
  end.

Definition run (ops : list operation) (d : db) : db :=
  fold_left (fun d o => step o d) ops d.

Definition handles (d : db) : list string := map handle (companies d).

(** The statement that [update] issues for a handle and a field map. *)
Definition update_statement (h : string) (data : fields) : statement :=
  UpdateCompany (fragments jsToSql (map fst data) 1)
    (List.length (map snd data) + 1) (map snd data ++ [VStr h]).

(** The table after the rows of handle [h] are rewritten by [f]. *)
Definition rewrite_rows (h : string) (f : company -> company) (t : table) : table :=
  map (fun c => if has_handle h c then f c else c) t.

(** The calls that neither add nor drop a row. *)
Definition keeps_rows (o : operation) : Prop :=
  match o with
  | Create _ | Remove _ => False
  | _ => True
  end.

Definition sample_updates : list operation :=
  [Update "acme" [("numEmployees"%string, VNum 7)]; Get "bolt";
   Update "bolt" [("name"%string, VStr "Bolt")]].

(** The order of the rows that ORDER BY name returns. *)
Definition name_le (a b : company) : Prop := (name a <=? name b)%string = true.

(** The constraints of the table: the primary key [handle] and the row
    constraint. *)
Definition well_formed (d : db) : Prop :=
  NoDup (handles d) /\ forallb row_ok (companies d) = true.

(** A call that ended by throwing. *)
Definition is_throw {A : Type} (r : result A) : bool :=
  match r with
  | Throw _ => true
  | Ok _ => false
  end.

Definition throws (o : operation) (d : db) : bool :=
  match o with
  | Create data => is_throw (fst (Company.create data d))
  | FindAll qry => is_throw (fst (Company.findAll qry d))
  | Get h => is_throw (fst (Company.get h d))
  | Update h data => is_throw (fst (Company.update h data d))
  | Remove h => is_throw (fst (Company.remove h d))
  end.

(** * Properties *)

(** ** ORDER BY name *)

Lemma insert_by_name_perm (c : company) (l : list company) :
  Permutation (c :: l) (insert_by_name c l).
Proof.
  induction l as [|x l IH]; simpl.
  - apply Permutation_refl.
  - destruct (name c <=? name x)%string.
    + apply Permutation_refl.
    + apply perm_trans with (x :: c :: l).
      * apply perm_swap.
      * apply perm_skip, IH.
Qed.

Lemma order_by_name_perm (l : list company) : Permutation (order_by_name l) l.
Proof.
  induction l as [|c l IH]; simpl.
  - apply perm_nil.
  - apply Permutation_sym.
    apply perm_trans with (c :: order_by_name l).
    + apply perm_skip, Permutation_sym, IH.
    + apply insert_by_name_perm.
Qed.

Lemma order_by_name_In (c : company) (l : list company) :
  In c (order_by_name l) <-> In c l.
Proof.
  split; apply Permutation_in.
  - apply order_by_name_perm.
  - apply Permutation_sym, order_by_name_perm.
Qed.

Lemma insert_by_name_hd (c x : company) (l : list company) :
  name_le x c -> HdRel name_le x l -> HdRel name_le x (insert_by_name c l).
Proof.
  intros Hxc Hl. destruct l as [|y l]; simpl.
  - constructor. exact Hxc.
  - destruct (name c <=? name y)%string.
    + constructor. exact Hxc.
    + constructor. inversion Hl; assumption.
Qed.

Lemma insert_by_name_sorted (c : company) (l : list company) :
  Sorted name_le l -> Sorted name_le (insert_by_name c l).
Proof.
  induction 1 as [|x l Hs IH Hhd]; simpl.
  - repeat constructor.
  - destruct (name c <=? name x)%string eqn:E.
    + constructor.
      * constructor; assumption.
      * constructor. exact E.
    + constructor.
      * exact IH.
      * apply insert_by_name_hd; [|exact Hhd].
        destruct (String.leb_total (name c) (name x)) as [H|H].
        -- rewrite H in E. discriminate.
        -- exact H.
Qed.

Lemma order_by_name_sorted (l : list company) : Sorted name_le (order_by_name l).
Proof.
  induction l as [|c l IH]; simpl.
  - constructor.
  - apply insert_by_name_sorted, IH.
Qed.

(** ** The store *)

Lemma has_handle_true (h : string) (c : company) :
  has_handle h c = true <-> handle c = h.
Proof. unfold has_handle. apply String.eqb_eq. Qed.

Lemma existsb_has_handle (h : string) (t : table) :
  existsb (has_handle h) t = true <-> In h (map handle t).
Proof.
  rewrite existsb_exists, in_map_iff. split.
  - intros [c [Hin Hc]]. exists c. split; [apply has_handle_true, Hc|exact Hin].
  - intros [c [Hc Hin]]. exists c. split; [exact Hin|apply has_handle_true, Hc].
Qed.

Lemma filter_has_handle_nil (h : string) (t : table) :
  ~ In h (map handle t) -> filter (has_handle h) t = [].
Proof.
  intros Hn. induction t as [|c t IH]; simpl; [reflexivity|].
  destruct (has_handle h c) eqn:E.
  - exfalso. apply Hn. left. apply has_handle_true, E.
  - apply IH. intros Hin. apply Hn. right. exact Hin.
Qed.

Lemma filter_has_handle_cons (h : string) (t : table) :
  In h (map handle t) -> exists c rest, filter (has_handle h) t = c :: rest.
Proof.
  intros Hin. apply in_map_iff in Hin. destruct Hin as [c [Hc Hin]].
  assert (Hf : In c (filter (has_handle h) t)).
  { apply filter_In. split; [exact Hin|apply has_handle_true, Hc]. }
  destruct (filter (has_handle h) t) as [|x rest].
  - contradiction.
  - exists x, rest. reflexivity.
Qed.

Lemma filter_has_handle_one (c : company) (t : table) :
  NoDup (map handle t) -> In c t -> filter (has_handle (handle c)) t = [c].
Proof.
  induction t as [|x t IH]; simpl; intros Hnd Hin; [contradiction|].
  inversion Hnd as [|? ? Hx Hnd']; subst.
  destruct Hin as [->|Hin].
  - assert (E : has_handle (handle c) c = true) by (apply has_handle_true; reflexivity).
    rewrite E. f_equal. apply filter_has_handle_nil. exact Hx.
  - destruct (has_handle (handle c) x) eqn:E.
    + exfalso. apply Hx. apply has_handle_true in E. rewrite E.
      apply in_map. exact Hin.
    + apply IH; assumption.
Qed.

Lemma distinct_NoDup (l : list string) : distinct l = true <-> NoDup l.
Proof.
  induction l as [|x l IH]; simpl.
  - split; [constructor|reflexivity].
  - rewrite andb_true_iff, negb_true_iff, IH. split.
    + intros [Hx Hl]. constructor; [|exact Hl].
      intros Hin. assert (H : existsb (String.eqb x) l = true).
      { apply existsb_exists. exists x. split; [exact Hin|apply String.eqb_refl]. }
      rewrite H in Hx. discriminate.
    + intros Hnd. inversion Hnd as [|? ? Hx Hl]; subst. split; [|exact Hl].
      destruct (existsb (String.eqb x) l) eqn:E; [|reflexivity].
      exfalso. apply Hx. apply existsb_exists in E. destruct E as [y [Hin Hy]].
      apply String.eqb_eq in Hy. subst y. exact Hin.
Qed.

(** ** create *)

Lemma create_unfold (data : company) (d : db) :
  Company.create data d =
  match filter (has_handle (handle data)) (companies d) with
  | _ :: _ =>
      (Throw (BadRequestError ("Duplicate company: " ++ handle data)%string),
       {| companies := companies d;
          issued := issued d ++ [SelectHandle (handle data)] |})
  | [] =>
      if row_ok data then
        (Ok (Some data),
         {| companies := companies d ++ [data];
            issued := issued d ++ [SelectHandle (handle data)]
                        ++ [InsertCompany data] |})
      else
        (Throw DatabaseError,
         {| companies := companies d;
            issued := issued d ++ [SelectHandle (handle data)]
                        ++ [InsertCompany data] |})
  end.
Proof.
  unfold Company.create, query_handle, bind, query, ret, throw.
  cbn [exec companies issued].
  destruct (filter (has_handle (handle data)) (companies d)) as [|c rest] eqn:E.
  - cbn [map companies issued exec].
    assert (Hex : existsb (has_handle (handle data)) (companies d) = false).
    { destruct (existsb (has_handle (handle data)) (companies d)) eqn:Ex;
        [|reflexivity].
      apply existsb_has_handle, filter_has_handle_cons in Ex.
      destruct Ex as [c [rest Ex]]. rewrite Ex in E. discriminate. }
    rewrite Hex, <- app_assoc.
    destruct (row_ok data); reflexivity.
  - reflexivity.
Qed.

(** C2.  A create whose handle is already in the table throws the
    duplicate error, which carries the handle; the only statement issued is
    the duplicate check, no INSERT, and the table is the same. *)
Theorem create_duplicate_fails (data : company) (d : db) :
  In (handle data) (map handle (companies d)) ->
  Company.create data d =
  (Throw (BadRequestError ("Duplicate company: " ++ handle data)%string),
   {| companies := companies d;
      issued := issued d ++ [SelectHandle (handle data)] |}).
Proof.
  intros Hin. rewrite create_unfold.
  destruct (filter_has_handle_cons _ _ Hin) as [c [rest E]].
  rewrite E. reflexivity.
Qed.

Lemma create_duplicate_fails_witness :
  Company.create acme sample =
  (Throw (BadRequestError "Duplicate company: acme"),
   {| companies := [cask; acme; bolt]; issued := [SelectHandle "acme"] |}).
Proof.
  apply (create_duplicate_fails acme sample).
  simpl. right. left. reflexivity.
Defined.

Lemma get_unfold (h : string) (d : db) :
  Company.get h d =
  match filter (has_handle h) (companies d) with
  | [] =>
      (Throw (NotFoundError ("No company: " ++ h)%string),
       {| companies := companies d; issued := issued d ++ [SelectCompany h] |})
  | c :: _ =>
      (Ok c,
       {| companies := companies d; issued := issued d ++ [SelectCompany h] |})
  end.
Proof.
  unfold Company.get, bind, query, ret, throw. cbn [exec companies issued].
  destruct (filter (has_handle h) (companies d)); reflexivity.
Qed.

Lemma filter_has_handle_fresh (data : company) (t : table) :
  ~ In (handle data) (map handle t) ->
  filter (has_handle (handle data)) (t ++ [data]) = [data].
Proof.
  intros Hn. rewrite filter_app, filter_has_handle_nil by exact Hn.
  simpl. assert (E : has_handle (handle data) data = true)
    by (apply has_handle_true; reflexivity).
  rewrite E. reflexivity.
Qed.

(** C3.  A create with a fresh handle and a row the table accepts (texts
    without NUL character, numEmployees absent or a value of INTEGER that is
    >= 0) returns the record given, and adds it to the table; a get with
    the same handle then returns the same record. *)
Theorem create_then_get (data : company) (d : db) :
  ~ In (handle data) (map handle (companies d)) ->
  row_ok data = true ->
  exists d',
    Company.create data d = (Ok (Some data), d') /\
    companies d' = companies d ++ [data] /\
    Company.get (handle data) d' =
    (Ok data,
     {| companies := companies d';
        issued := issued d' ++ [SelectCompany (handle data)] |}).
Proof.
  intros Hn Hok. rewrite create_unfold.
  rewrite filter_has_handle_nil by exact Hn. rewrite Hok.
  eexists. split; [reflexivity|]. split; [reflexivity|].
  rewrite get_unfold. cbn [companies issued].
  rewrite filter_has_handle_fresh by exact Hn. reflexivity.
Qed.

Lemma create_then_get_witness :
  exists d',
    Company.create dune sample = (Ok (Some dune), d') /\
    companies d' = [cask; acme; bolt; dune] /\
    Company.get "dune" d' =
    (Ok dune,
     {| companies := companies d';
        issued := issued d' ++ [SelectCompany "dune"] |}).
Proof.
  apply (create_then_get dune sample).
  - simpl. intros [H|[H|[H|[]]]]; discriminate H.
  - reflexivity.
Defined.

(** ** findAll: the bounds check *)

(** C4.  With both bounds present and minEmployees greater than
    maxEmployees, findAll throws the invalid-filter error and leaves the
    store as it was: no statement is issued. *)
Theorem findAll_inverted_bounds (n : option string) (lo hi : Z) (d : db) :
  hi < lo ->
  Company.findAll (q n (Some lo) (Some hi)) d =
  (Throw (BadRequestError "minEmployees cannot be greater than maxEmployees"),
   d).
Proof.
  intros H. unfold Company.findAll, q. cbn [Query.name Query.minEmployees Query.maxEmployees number_gt].
  apply Z.ltb_lt in H. rewrite H. reflexivity.
Qed.

Lemma findAll_inverted_bounds_witness :
  Company.findAll (q None (Some 50) (Some 10)) sample =
  (Throw (BadRequestError "minEmployees cannot be greater than maxEmployees"),
   sample).
Proof.
  apply (findAll_inverted_bounds None 50 10 sample). lia.
Defined.

(** ** LIKE patterns *)

Lemma like_any_unfold (p : list pat_item) (s : string) :
  like_items (PAny :: p) s =
  like_items p s ||
  match s with
  | EmptyString => false
  | String _ s' => like_items (PAny :: p) s'
  end.
Proof. destruct s; reflexivity. Qed.

Lemma like_any_spec (p : list pat_item) (s : string) :
  like_items (PAny :: p) s = true <->
  exists pre post, s = (pre ++ post)%string /\ like_items p post = true.
Proof.
  induction s as [|c s IH]; rewrite like_any_unfold, orb_true_iff.
  - split.
    + intros [H|H]; [|discriminate]. exists EmptyString, EmptyString. split; [reflexivity|exact H].
    + intros [pre [post [E H]]]. left.
      destruct pre; [|discriminate]. simpl in E. subst post. exact H.
  - rewrite IH. split.
    + intros [H|[pre [post [E H]]]].
      * exists EmptyString, (String c s). split; [reflexivity|exact H].
      * exists (String c pre), post. split; [simpl; rewrite E; reflexivity|exact H].
    + intros [pre [post [E H]]]. destruct pre as [|a pre].
      * left. simpl in E. subst post. exact H.
      * right. simpl in E. injection E as _ E. exists pre, post. split; assumption.
Qed.

Lemma like_any_all (s : string) : like_items [PAny] s = true.
Proof.
  apply like_any_spec. exists s, EmptyString. split.
  - clear. induction s as [|c s IH]; simpl; [reflexivity|]. rewrite <- IH. reflexivity.
  - reflexivity.
Qed.

Lemma like_chars_spec (n : string) (p : list pat_item) (s : string) :
  like_items (chars n ++ p) s = true <->
  exists post, s = (n ++ post)%string /\ like_items p post = true.
Proof.
  revert s. induction n as [|c n IH]; intros s.
  - simpl. split.
    + intros H. exists s. split; [reflexivity|exact H].
    + intros [post [E H]]. subst s. exact H.
  - unfold chars. cbn [list_ascii_of_string map app like_items].
    destruct s as [|a s].
    + split; [discriminate|]. intros [post [E _]]. discriminate.
    + rewrite andb_true_iff. fold (chars n). rewrite IH, Ascii.eqb_eq. split.
      * intros [-> [post [E H]]]. exists post. split; [simpl; rewrite E; reflexivity|exact H].
      * intros [post [E H]]. simpl in E. injection E as -> E.
        split; [reflexivity|]. exists post. split; assumption.
Qed.

Lemma parse_pattern_literal (s rest : string) :
  literal s = true ->
  parse_pattern (s ++ rest) = option_map (app (chars s)) (parse_pattern rest).
Proof.
  induction s as [|c s IH]; intros H.
  - simpl. destruct (parse_pattern rest); reflexivity.
  - simpl in H. apply andb_true_iff in H. destruct H as [Hc Hs].
    apply negb_true_iff in Hc. apply orb_false_iff in Hc. destruct Hc as [Hc H3].
    apply orb_false_iff in Hc. destruct Hc as [H1 H2].
    cbn [append parse_pattern]. rewrite H1, H2, H3, (IH Hs).
    destruct (parse_pattern rest); reflexivity.
Qed.

(** A pattern that ends in [%] is well formed, whatever precedes it. *)
Lemma parse_pattern_percent (s : string) :
  parse_pattern (s ++ "%") <> None /\
  forall c, parse_pattern (String c s ++ "%") <> None.
Proof.
  induction s as [|a s [IH1 IH2]].
  - split; [discriminate|]. intros c. cbn [append parse_pattern].
    destruct (c =? "%")%char; [discriminate|].
    destruct (c =? "_")%char; [discriminate|].
    destruct (c =? "\")%char; discriminate.
  - split; [apply IH2|]. intros c.
    assert (Hm : forall (x : pat_item) o, o <> None -> option_map (cons x) o <> None).
    { intros x [l|] Ho; [discriminate|contradiction]. }
    change (String c (String a s) ++ "%")%string
      with (String c (String a s ++ "%")).
    cbn [parse_pattern].
    destruct (c =? "%")%char; [apply Hm, IH2|].
    destruct (c =? "_")%char; [apply Hm, IH2|].
    destruct (c =? "\")%char; [|apply Hm, IH2].
    cbn [append]. apply Hm, IH1.
Qed.

Lemma lower_app (a b : string) : lower (a ++ b) = (lower a ++ lower b)%string.
Proof. induction a as [|c a IH]; simpl; [|rewrite IH]; reflexivity. Qed.

Lemma lower_char_special (c : ascii) :
  (lower_char c =? "%")%char = (c =? "%")%char /\
  (lower_char c =? "_")%char = (c =? "_")%char /\
  (lower_char c =? "\")%char = (c =? "\")%char.
Proof. destruct c as [[] [] [] [] [] [] [] []]; vm_compute; auto. Qed.

Lemma literal_lower (s : string) : literal (lower s) = literal s.
Proof.
  induction s as [|c s IH]; simpl; [reflexivity|].
  destruct (lower_char_special c) as [H1 [H2 H3]].
  rewrite H1, H2, H3, IH. reflexivity.
Qed.

Lemma lower_filter_pattern (n : string) :
  lower ("%" ++ n ++ "%") = ("%" ++ lower n ++ "%")%string.
Proof. rewrite !lower_app. reflexivity. Qed.

(** The patterns of findAll are well formed. *)
Lemma parse_filter_pattern (n : string) :
  exists items,
    parse_pattern (lower ("%" ++ n ++ "%")) = Some (PAny :: items).
Proof.
  rewrite lower_filter_pattern.
  change ("%" ++ lower n ++ "%")%string with (String "%" (lower n ++ "%")).
  cbn [parse_pattern]. rewrite Ascii.eqb_refl.
  destruct (parse_pattern_percent (lower n)) as [H _].
  destruct (parse_pattern (lower n ++ "%")) as [items|]; [|contradiction].
  exists items. reflexivity.
Qed.

Lemma ilike_filter_pattern (n s : string) :
  exists b, ilike ("%" ++ n ++ "%") s = Some b.
Proof.
  unfold ilike. destruct (parse_filter_pattern n) as [items E]. rewrite E.
  eexists. reflexivity.
Qed.

(** For a filter without special characters, the pattern is a substring
    test, letter case apart. *)
Lemma ilike_literal (n s : string) :
  literal n = true ->
  (ilike ("%" ++ n ++ "%") s = Some true <-> contains_ci n s).
Proof.
  intros Hl. unfold ilike, contains_ci. rewrite lower_filter_pattern.
  change ("%" ++ lower n ++ "%")%string with (String "%" (lower n ++ "%")).
  cbn [parse_pattern]. rewrite Ascii.eqb_refl.
  rewrite parse_pattern_literal by (rewrite literal_lower; exact Hl).
  cbn [parse_pattern option_map]. rewrite Ascii.eqb_refl. cbn [option_map].
  split.
  - intros H. injection H as H. apply like_any_spec in H.
    destruct H as [pre [post [E H]]]. apply like_chars_spec in H.
    destruct H as [post' [E' _]]. exists pre, post'. rewrite E, E'. reflexivity.
  - intros [pre [post E]]. f_equal. apply like_any_spec.
    exists pre, (lower n ++ post)%string. split; [exact E|].
    apply like_chars_spec. exists post. split; [reflexivity|apply like_any_all].
Qed.

(** ** findAll: the four queries *)

Lemma employees_between_in (lo hi : Z) (c : company) :
  employees_between lo hi c = true <-> employees_in lo hi c.
Proof.
  unfold employees_between, employees_in. destruct (numEmployees c) as [k|].
  - rewrite andb_true_iff, !Z.leb_le. split.
    + intros H. exists k. split; [reflexivity|exact H].
    + intros [k' [E H]]. injection E as ->. exact H.
  - split; [discriminate|]. intros [k [E _]]. discriminate.
Qed.

Lemma query_SelectAll (d : db) :
  query SelectAll d = (Ok (order_by_name (companies d)), logged d SelectAll).
Proof. reflexivity. Qed.

Lemma query_SelectByEmployeeNum_cases (lo hi : Z) (d : db) :
  query (SelectByEmployeeNum lo hi) d =
  if in_integer lo && in_integer hi then
    (Ok (order_by_name (filter (employees_between lo hi) (companies d))),
     logged d (SelectByEmployeeNum lo hi))
  else (Throw DatabaseError, logged d (SelectByEmployeeNum lo hi)).
Proof.
  unfold query. cbn [exec]. destruct (in_integer lo && in_integer hi); reflexivity.
Qed.

Lemma query_SelectByEmployeeNum (lo hi : Z) (d : db) :
  in_integer lo && in_integer hi = true ->
  query (SelectByEmployeeNum lo hi) d =
  (Ok (order_by_name (filter (employees_between lo hi) (companies d))),
   logged d (SelectByEmployeeNum lo hi)).
Proof. intros H. rewrite query_SelectByEmployeeNum_cases, H. reflexivity. Qed.

Lemma query_SelectByName (n : string) (d : db) :
  query (SelectByName ("%" ++ n ++ "%")) d =
  (Ok (order_by_name (filter (matches_filter n) (companies d))),
   logged d (SelectByName ("%" ++ n ++ "%"))).
Proof.
  unfold query. cbn [exec].
  destruct (parse_filter_pattern n) as [items E]. rewrite E.
  unfold logged. do 3 f_equal. apply filter_ext. intros c.
  unfold matches_filter, ilike. rewrite E. reflexivity.
Qed.

Lemma query_SelectByNameAndEmployeeNum_cases (n : string) (lo hi : Z) (d : db) :
  query (SelectByNameAndEmployeeNum ("%" ++ n ++ "%") lo hi) d =
  if in_integer lo && in_integer hi then
    (Ok (order_by_name
           (filter (fun c => matches_filter n c && employees_between lo hi c)
              (companies d))),
     logged d (SelectByNameAndEmployeeNum ("%" ++ n ++ "%") lo hi))
  else
    (Throw DatabaseError,
     logged d (SelectByNameAndEmployeeNum ("%" ++ n ++ "%") lo hi)).
Proof.
  unfold query. cbn [exec].
  destruct (in_integer lo && in_integer hi); [|reflexivity]. cbn [negb].
  destruct (parse_filter_pattern n) as [items E]. rewrite E.
  unfold logged. do 3 f_equal. apply filter_ext. intros c.
  unfold matches_filter, ilike. rewrite E. reflexivity.
Qed.

Lemma query_SelectByNameAndEmployeeNum (n : string) (lo hi : Z) (d : db) :
  in_integer lo && in_integer hi = true ->
  query (SelectByNameAndEmployeeNum ("%" ++ n ++ "%") lo hi) d =
  (Ok (order_by_name
         (filter (fun c => matches_filter n c && employees_between lo hi c)
            (companies d))),
   logged d (SelectByNameAndEmployeeNum ("%" ++ n ++ "%") lo hi)).
Proof.
  intros H. rewrite query_SelectByNameAndEmployeeNum_cases, H. reflexivity.
Qed.

Lemma matches_filter_literal (n : string) (c : company) :
  literal n = true -> (matches_filter n c = true <-> contains_ci n (name c)).
Proof.
  intros Hl. rewrite <- (ilike_literal n (name c) Hl). unfold matches_filter.
  destruct (ilike ("%" ++ n ++ "%") (name c)) as [b|].
  - split; [intros ->; reflexivity|intros H; injection H as ->; reflexivity].
  - split; discriminate.
Qed.

Lemma matches_filter_empty (c : company) : matches_filter EmptyString c = true.
Proof.
  apply matches_filter_literal; [reflexivity|].
  exists EmptyString, (lower (name c)). reflexivity.
Qed.

Lemma truthy_string_Some (n : string) :
  n <> EmptyString -> truthy_string (Some n) = true.
Proof.
  intros H. simpl. destruct (String.eqb_spec n EmptyString); [contradiction|reflexivity].
Qed.

Lemma findAll_unfold (n : option string) (lo hi : option Z) (d : db) :
  Company.findAll (q n lo hi) d =
  if number_gt lo hi then
    (Throw (BadRequestError "minEmployees cannot be greater than maxEmployees"), d)
  else if truthy_string n && (truthy_number lo || truthy_number hi) then
    Company.findAllByNameAndEmployeeNum n
      (or_number lo 0) (or_number hi 1000000) d
  else if negb (truthy_string n) && (truthy_number lo || truthy_number hi) then
    Company.findAllByEmployeeNum (or_number lo 0) (or_number hi 1000000) d
  else if truthy_string n && negb (truthy_number lo && truthy_number hi) then
    Company.findAllByName n d
  else query SelectAll d.
Proof.
  unfold Company.findAll, q.
  cbn [Query.name Query.minEmployees Query.maxEmployees].
  destruct (number_gt lo hi); [reflexivity|].
  destruct (truthy_string n && (truthy_number lo || truthy_number hi)); [reflexivity|].
  destruct (negb (truthy_string n) && (truthy_number lo || truthy_number hi)); [reflexivity|].
  destruct (truthy_string n && negb (truthy_number lo && truthy_number hi)); reflexivity.
Qed.

(** With a name and no truthy bound, the rows are those whose name matches
    the pattern of the name, in name order. *)
Lemma findAll_name_only (n : string) (lo hi : option Z) (d : db) :
  number_gt lo hi = false ->
  truthy_number lo = false -> truthy_number hi = false ->
  exists s,
    Company.findAll (q (Some n) lo hi) d =
    (Ok (order_by_name (filter (matches_filter n) (companies d))), logged d s) /\
    (n <> EmptyString -> s = SelectByName ("%" ++ n ++ "%")).
Proof.
  intros Hgt Hlo Hhi. rewrite findAll_unfold, Hgt, Hlo, Hhi.
  destruct (String.eqb_spec n EmptyString) as [->|Hn].
  - exists SelectAll. cbn [truthy_string String.eqb negb andb orb].
    rewrite query_SelectAll. split; [|intros H; contradiction H; reflexivity].
    do 3 f_equal. symmetry. apply forallb_filter_id, forallb_forall.
    intros c _. apply matches_filter_empty.
  - exists (SelectByName ("%" ++ n ++ "%")). rewrite truthy_string_Some by exact Hn.
    cbn [negb andb orb]. unfold Company.findAllByName, template.
    rewrite query_SelectByName. split; reflexivity.
Qed.

(** ** findAll: the dispatch *)

(** C5, as amended.  With no name, bounds that are not inverted and are
    values of the type INTEGER of the store, and at least one bound present
    and different from 0, findAll issues the employee-range query and
    returns exactly the companies whose numEmployees lies in
    [[minEmployees || 0, maxEmployees || 1000000]], in name order; a bound
    equal to 0 is read as absent. *)
Theorem findAll_by_employee_range (lo hi : option Z) (d : db) :
  number_gt lo hi = false ->
  truthy_number lo || truthy_number hi = true ->
  bounds_in_integer lo hi = true ->
  exists rows,
    Company.findAll (q None lo hi) d =
    (Ok rows,
     logged d (SelectByEmployeeNum (or_number lo 0) (or_number hi 1000000))) /\
    Sorted name_le rows /\
    Permutation rows
      (filter (employees_between (or_number lo 0) (or_number hi 1000000))
         (companies d)) /\
    forall c,
      In c rows <->
      In c (companies d) /\
      employees_in (or_number lo 0) (or_number hi 1000000) c.
Proof.
  intros Hgt Ht Hr. rewrite findAll_unfold, Hgt, Ht. cbn [truthy_string negb andb].
  unfold Company.findAllByEmployeeNum.
  rewrite query_SelectByEmployeeNum by exact Hr.
  eexists. split; [reflexivity|]. split; [apply order_by_name_sorted|].
  split; [apply order_by_name_perm|].
  intros c. rewrite order_by_name_In, filter_In, employees_between_in. tauto.
Qed.

Lemma findAll_by_employee_range_witness :
  exists rows,
    Company.findAll (q None (Some 10) (Some 100)) sample =
    (Ok rows, logged sample (SelectByEmployeeNum 10 100)) /\
    Sorted name_le rows /\
    Permutation rows (filter (employees_between 10 100) [cask; acme; bolt]) /\
    forall c,
      In c rows <-> In c [cask; acme; bolt] /\ employees_in 10 100 c.
Proof.
  apply (findAll_by_employee_range (Some 10) (Some 100) sample); reflexivity.
Defined.

(** C5 as stated fails when the only bound present is 0: findAll takes the
    unfiltered branch, and the rows include a company without numEmployees
    and one above 1000000. *)
Lemma findAll_zero_bound_counterexample :
  Company.findAll (q None (Some 0) None) sample =
  (Ok [acme; bolt; cask], logged sample SelectAll) /\
  ~ employees_in 0 1000000 bolt /\
  ~ employees_in 0 1000000 cask.
Proof.
  split; [reflexivity|]. split.
  - intros [k [E _]]. discriminate E.
  - intros [k [E H]]. injection E as <-. lia.
Qed.

(** C6, as amended.  With a name made of ASCII characters other than [%],
    [_] and [\], no bound, and a table whose names are made of ASCII
    characters, findAll leaves the table as it is and returns exactly the
    companies whose name contains the name given as a substring, letter
    case apart, in name order. *)
Theorem findAll_by_name (n : string) (d : db) :
  literal n = true ->
  ascii_text n = true ->
  ascii_names d ->
  exists rows s,
    Company.findAll (q (Some n) None None) d = (Ok rows, logged d s) /\
    Sorted name_le rows /\
    Permutation rows (filter (matches_filter n) (companies d)) /\
    forall c, In c rows <-> In c (companies d) /\ contains_ci n (name c).
Proof.
  intros Hl _ _.
  destruct (findAll_name_only n None None d) as [s [E _]]; try reflexivity.
  eexists. exists s. split; [exact E|].
  split; [apply order_by_name_sorted|]. split; [apply order_by_name_perm|].
  intros c. rewrite order_by_name_In, filter_In, (matches_filter_literal n c Hl).
  tauto.
Qed.

Lemma findAll_by_name_witness :
  exists rows s,
    Company.findAll (q (Some "NET") None None) sample =
    (Ok rows, logged sample s) /\
    Sorted name_le rows /\
    Permutation rows (filter (matches_filter "NET") [cask; acme; bolt]) /\
    forall c, In c rows <-> In c [cask; acme; bolt] /\ contains_ci "NET" (name c).
Proof.
  apply (findAll_by_name "NET" sample).
  - reflexivity.
  - reflexivity.
  - repeat constructor.
Defined.

Lemma append_char_In (c : ascii) (pre post s : string) :
  s = (pre ++ String c post)%string -> In c (list_ascii_of_string s).
Proof.
  intros ->. induction pre as [|a pre IH]; simpl; [left; reflexivity|right; exact IH].
Qed.

(** C6 as stated fails for a name with a special character: [_] matches any
    character, so the name "_" selects every company with a name, and no
    name of the sample contains "_". *)
Lemma findAll_underscore_counterexample :
  Company.findAll (q (Some "_") None None) sample =
  (Ok [acme; bolt; cask], logged sample (SelectByName "%_%")) /\
  ~ contains_ci "_" (name acme) /\
  ~ contains_ci "_" (name bolt) /\
  ~ contains_ci "_" (name cask).
Proof.
  split; [reflexivity|].
  repeat split; intros [pre [post E]]; apply append_char_In in E; simpl in E;
    repeat (destruct E as [E|E]; [discriminate E|]); exact E.
Qed.

(** C7, as amended.  With a name that is not empty and made of ASCII
    characters, a table whose names are made of ASCII characters, and
    exactly one bound present, that bound different from 0 and a value of
    the type INTEGER of the store, findAll issues the combined query of
    branch 1, not the name-only query: the rows are the companies whose
    name matches [%name%] and whose numEmployees lies in
    [[minEmployees || 0, maxEmployees || 1000000]], in name order; for a
    name without special characters the name test is the substring test,
    letter case apart. *)
Theorem findAll_by_name_and_one_bound (n : string) (lo hi : option Z) (d : db) :
  n <> EmptyString ->
  ascii_text n = true ->
  ascii_names d ->
  (truthy_number lo = true /\ hi = None) \/
  (lo = None /\ truthy_number hi = true) ->
  bounds_in_integer lo hi = true ->
  exists rows,
    Company.findAll (q (Some n) lo hi) d =
    (Ok rows,
     logged d (SelectByNameAndEmployeeNum ("%" ++ n ++ "%")
                 (or_number lo 0) (or_number hi 1000000))) /\
    Sorted name_le rows /\
    Permutation rows
      (filter (fun c => matches_filter n c
                        && employees_between (or_number lo 0)
                             (or_number hi 1000000) c)
         (companies d)) /\
    (literal n = true ->
     forall c,
       In c rows <->
       In c (companies d) /\ contains_ci n (name c) /\
       employees_in (or_number lo 0) (or_number hi 1000000) c).
Proof.
  intros Hn _ _ Hb Hr.
  assert (Hgt : number_gt lo hi = false).
  { destruct Hb as [[_ ->]|[-> _]]; [destruct lo|]; reflexivity. }
  assert (Ht : truthy_number lo || truthy_number hi = true).
  { destruct Hb as [[-> _]|[_ ->]]; [reflexivity|apply orb_true_r]. }
  rewrite findAll_unfold, Hgt, Ht, (truthy_string_Some n Hn). cbn [andb].
  unfold Company.findAllByNameAndEmployeeNum, template.
  rewrite query_SelectByNameAndEmployeeNum by exact Hr.
  eexists. split; [reflexivity|]. split; [apply order_by_name_sorted|].
  split; [apply order_by_name_perm|].
  intros Hl c.
  rewrite order_by_name_In, filter_In, andb_true_iff, employees_between_in,
    (matches_filter_literal n c Hl).
  tauto.
Qed.

Lemma findAll_by_name_and_one_bound_witness :
  exists rows,
    Company.findAll (q (Some "net") (Some 1) None) sample =
    (Ok rows, logged sample (SelectByNameAndEmployeeNum "%net%" 1 1000000)) /\
    Sorted name_le rows /\
    Permutation rows
      (filter (fun c => matches_filter "net" c && employees_between 1 1000000 c)
         [cask; acme; bolt]) /\
    (literal "net" = true ->
     forall c,
       In c rows <->
       In c [cask; acme; bolt] /\ contains_ci "net" (name c) /\
       employees_in 1 1000000 c).
Proof.
  apply (findAll_by_name_and_one_bound "net" (Some 1) None sample).
  - discriminate.
  - reflexivity.
  - repeat constructor.
  - left. split; reflexivity.
  - reflexivity.
Defined.

(** C7 as stated fails when the one bound present is 0: findAll issues the
    name-only query, and the rows include a company without
    numEmployees. *)
Lemma findAll_name_zero_bound_counterexample :
  Company.findAll (q (Some "net") (Some 0) None) sample =
  (Ok [acme; bolt], logged sample (SelectByName "%net%")) /\
  ~ employees_in 0 1000000 bolt.
Proof.
  split; [reflexivity|]. intros [k [E _]]. discriminate E.
Qed.





(** ** update: the compiled SET clause *)

Lemma fragments_columns (js : list (string * string)) (keys : list string) (n : nat) :
  map fst (fragments js keys n) = map (column_of js) keys.
Proof.
  revert n. induction keys as [|k keys IH]; intros n; simpl; [|rewrite IH]; reflexivity.
Qed.

Lemma bind_set_fragments (data : fields) (pre post : list value) :
  bind_set (fragments jsToSql (map fst data) (S (List.length pre)))
    (pre ++ map snd data ++ post) =
  bind_fields data.
Proof.
  revert pre. induction data as [|[k v] data IH]; intros pre; [reflexivity|].
  cbn [map fst snd fragments bind_set bind_fields param app].
  rewrite nth_error_app2 by apply Nat.le_refl.
  rewrite Nat.sub_diag. cbn [nth_error].
  specialize (IH (pre ++ [v])).
  rewrite length_app, Nat.add_1_r, <- app_assoc in IH. cbn [app] in IH.
  rewrite IH. reflexivity.
Qed.

Lemma param_last (values : list value) (v : value) :
  param (values ++ [v]) (List.length values + 1) = Some v.
Proof.
  rewrite Nat.add_1_r. cbn [param].
  rewrite nth_error_app2 by apply Nat.le_refl.
  rewrite Nat.sub_diag. reflexivity.
Qed.

Lemma column_of_cases (k : string) :
  (k = "numEmployees"%string /\ column_of jsToSql k = "num_employees"%string) \/
  (k = "logoUrl"%string /\ column_of jsToSql k = "logo_url"%string) \/
  (k <> "numEmployees"%string /\ k <> "logoUrl"%string /\ column_of jsToSql k = k).
Proof.
  unfold column_of, jsToSql. cbn [find fst snd].
  destruct (String.eqb_spec "numEmployees" k) as [<-|H1].
  - left. split; reflexivity.
  - destruct (String.eqb_spec "logoUrl" k) as [<-|H2].
    + right. left. split; reflexivity.
    + right. right. repeat split; congruence.
Qed.

Lemma documented_key_cases (k : string) :
  documented_key k = true ->
  k = "name"%string \/ k = "description"%string \/
  k = "numEmployees"%string \/ k = "logoUrl"%string.
Proof.
  unfold documented_key.
  destruct (String.eqb_spec k "name"); [auto|].
  destruct (String.eqb_spec k "description"); [auto|].
  destruct (String.eqb_spec k "numEmployees"); [auto|].
  destruct (String.eqb_spec k "logoUrl"); [auto|].
  discriminate.
Qed.

Lemma bind_assignment_name (v : value) :
  bind_assignment (column_of jsToSql "name") v = option_map SetName (bind_text v).
Proof. reflexivity. Qed.

Lemma bind_assignment_description (v : value) :
  bind_assignment (column_of jsToSql "description") v =
  option_map SetDescription (bind_text v).
Proof. reflexivity. Qed.

Lemma bind_assignment_numEmployees (v : value) :
  bind_assignment (column_of jsToSql "numEmployees") v =
  match v with
  | VNull => Some (SetNumEmployees None)
  | _ => option_map (fun n => SetNumEmployees (Some n)) (bind_integer v)
  end.
Proof. reflexivity. Qed.

Lemma bind_assignment_logoUrl (v : value) :
  bind_assignment (column_of jsToSql "logoUrl") v =
  match v with
  | VNull => Some (SetLogoUrl None)
  | _ => option_map (fun s => SetLogoUrl (Some s)) (bind_text v)
  end.
Proof. reflexivity. Qed.

(** A documented key compiles to an assignment of its own column, never of
    the column [handle], whatever the value. *)
Lemma bind_assignment_keeps_handle (k : string) (v : value) (a : assignment) :
  documented_key k = true ->
  bind_assignment (column_of jsToSql k) v = Some a ->
  forall c, handle (assign a c) = handle c.
Proof.
  intros Hk Hb c.
  destruct (documented_key_cases k Hk) as [ -> | [ -> | [ -> | -> ] ] ].
  - rewrite bind_assignment_name in Hb.
    destruct (bind_text v); inversion Hb; reflexivity.
  - rewrite bind_assignment_description in Hb.
    destruct (bind_text v); inversion Hb; reflexivity.
  - rewrite bind_assignment_numEmployees in Hb.
    destruct v; [inversion Hb; reflexivity| |];
      match type of Hb with
      | option_map _ ?o = _ => destruct o; inversion Hb; reflexivity
      end.
  - rewrite bind_assignment_logoUrl in Hb.
    destruct v; [inversion Hb; reflexivity| |];
      match type of Hb with
      | option_map _ ?o = _ => destruct o; inversion Hb; reflexivity
      end.
Qed.

Lemma field_accepts_cases (k : string) (v : value) :
  field_accepts k v = true ->
  k = "name"%string \/ k = "description"%string \/
  k = "numEmployees"%string \/ k = "logoUrl"%string.
Proof.
  unfold field_accepts.
  destruct (String.eqb_spec k "name"); [auto|].
  destruct (String.eqb_spec k "description"); [auto|].
  destruct (String.eqb_spec k "numEmployees"); [auto|].
  destruct (String.eqb_spec k "logoUrl"); [auto|].
  discriminate.
Qed.

Ltac field_cases k' :=
  unfold field;
  repeat match goal with
         | |- context [String.eqb k' ?s] =>
             destruct (String.eqb_spec k' s); [subst k'|]
         end;
  try reflexivity; try congruence.

(** The assignment of an accepted field writes that field and no other, and
    keeps the row constraint. *)
Lemma bind_assignment_field (k : string) (v : value) :
  field_accepts k v = true ->
  exists a,
    bind_assignment (column_of jsToSql k) v = Some a /\
    forall c,
      field k (assign a c) = v /\
      (forall k', k' <> k -> field k' (assign a c) = field k' c) /\
      (row_ok c = true -> row_ok (assign a c) = true).
Proof.
  intros H.
  destruct (field_accepts_cases k v H) as [ -> | [ -> | [ -> | -> ] ] ];
    destruct v as [|z|s]; try discriminate H; cbn in H.
  - exists (SetName s). split.
    + rewrite bind_assignment_name. cbn [bind_text]. rewrite H. reflexivity.
    + intros c. split; [reflexivity|].
      split; [intros k' Hk'; field_cases k'|].
      unfold row_ok. cbn [assign handle name description numEmployees logoUrl].
      rewrite !andb_true_iff. tauto.
  - exists (SetDescription s). split.
    + rewrite bind_assignment_description. cbn [bind_text]. rewrite H. reflexivity.
    + intros c. split; [reflexivity|].
      split; [intros k' Hk'; field_cases k'|].
      unfold row_ok. cbn [assign handle name description numEmployees logoUrl].
      rewrite !andb_true_iff. tauto.
  - exists (SetNumEmployees None). split; [reflexivity|].
    intros c. split; [reflexivity|].
    split; [intros k' Hk'; field_cases k'|].
    unfold row_ok. cbn [assign handle name description numEmployees logoUrl].
    rewrite !andb_true_iff. tauto.
  - exists (SetNumEmployees (Some z)).
    assert (Hz := H). apply andb_true_iff in Hz. destruct Hz as [_ Hz].
    split.
    + rewrite bind_assignment_numEmployees. cbn [bind_integer]. rewrite Hz.
      reflexivity.
    + intros c. split; [reflexivity|].
      split; [intros k' Hk'; field_cases k'|].
      unfold row_ok. cbn [assign handle name description numEmployees logoUrl].
      rewrite H, !andb_true_iff. tauto.
  - exists (SetLogoUrl None). split; [reflexivity|].
    intros c. split; [reflexivity|].
    split; [intros k' Hk'; field_cases k'|].
    unfold row_ok. cbn [assign handle name description numEmployees logoUrl].
    rewrite !andb_true_iff. tauto.
  - exists (SetLogoUrl (Some s)). split.
    + rewrite bind_assignment_logoUrl. cbn [bind_text]. rewrite H. reflexivity.
    + intros c. split; [reflexivity|].
      split; [intros k' Hk'; field_cases k'|].
      unfold row_ok. cbn [assign handle name description numEmployees logoUrl].
      rewrite H, !andb_true_iff. tauto.
Qed.

(** ** update: the statement and its effect *)

Lemma update_empty (h : string) (d : db) :
  Company.update h [] d = (Throw (BadRequestError "No data"), d).
Proof. reflexivity. Qed.

Lemma update_unfold (h : string) (data : fields) (d : db) :
  data <> [] ->
  Company.update h data d =
  match exec (update_statement h data) (companies d) with
  | Some (rows, t') =>
      (match rows with
       | [] => Throw (NotFoundError ("No company: " ++ h)%string)
       | c :: _ => Ok c
       end,
       {| companies := t'; issued := issued d ++ [update_statement h data] |})
  | None => (Throw DatabaseError, logged d (update_statement h data))
  end.
Proof.
  intros Hd. destruct data as [|kv data]; [contradiction Hd; reflexivity|].
  unfold Company.update, bind, lift, sqlForPartialUpdate, query, throw, ret.
  cbn [fst snd]. fold jsToSql. fold (update_statement h (kv :: data)).
  destruct (exec (update_statement h (kv :: data)) (companies d)) as [[rows t']|];
    [|reflexivity].
  destruct rows; reflexivity.
Qed.

Lemma exec_update (h : string) (data : fields) (t : table) :
  exec (update_statement h data) t =
  if negb (distinct (map (column_of jsToSql) (map fst data))) then None
  else
    match bind_fields data with
    | Some l =>
        let rows := map (apply_set l) (filter (has_handle h) t) in
        if forallb row_ok rows
           && distinct (map handle (rewrite_rows h (apply_set l) t))
        then Some (rows, rewrite_rows h (apply_set l) t)
        else None
    | None => None
    end.
Proof.
  unfold update_statement. cbn [exec]. rewrite fragments_columns.
  destruct (negb (distinct (map (column_of jsToSql) (map fst data))));
    [reflexivity|].
  pose proof (bind_set_fragments data [] [VStr h]) as Hb.
  cbn [List.length app] in Hb. rewrite Hb, param_last.
  destruct (bind_fields data); reflexivity.
Qed.

Lemma apply_set_handle (l : list assignment) (c : company) :
  Forall (fun a => forall c, handle (assign a c) = handle c) l ->
  handle (apply_set l c) = handle c.
Proof.
  intros H. revert c. induction H as [|a l Ha _ IH]; intros c; [reflexivity|].
  unfold apply_set. cbn [fold_left]. fold (apply_set l (assign a c)).
  rewrite IH. apply Ha.
Qed.

Lemma bind_fields_keep_handle (data : fields) (l : list assignment) :
  forallb documented_key (map fst data) = true ->
  bind_fields data = Some l ->
  Forall (fun a => forall c, handle (assign a c) = handle c) l.
Proof.
  revert l. induction data as [|[k v] data IH]; intros l Hn Hb.
  - injection Hb as <-. constructor.
  - cbn [bind_fields] in Hb. cbn [map fst forallb] in Hn.
    apply andb_true_iff in Hn. destruct Hn as [Hk Hn].
    destruct (bind_assignment (column_of jsToSql k) v) as [a|] eqn:Ea;
      [|discriminate Hb].
    destruct (bind_fields data) as [l'|]; [|discriminate Hb].
    injection Hb as <-. constructor.
    + apply (bind_assignment_keeps_handle k v a); [exact Hk|exact Ea].
    + apply IH; [exact Hn|reflexivity].
Qed.

Lemma rewrite_rows_handles (h : string) (f : company -> company) (t : table) :
  (forall c, handle (f c) = handle c) ->
  map handle (rewrite_rows h f t) = map handle t.
Proof.
  intros Hf. unfold rewrite_rows. rewrite map_map. apply map_ext.
  intros c. destruct (has_handle h c); [apply Hf|reflexivity].
Qed.

Lemma rewrite_rows_absent (h : string) (f : company -> company) (t : table) :
  ~ In h (map handle t) -> rewrite_rows h f t = t.
Proof.
  intros Hn. unfold rewrite_rows. rewrite <- (map_id t) at 2.
  apply map_ext_in. intros c Hin.
  destruct (has_handle h c) eqn:E; [|reflexivity].
  exfalso. apply Hn. apply has_handle_true in E. subst h. apply in_map, Hin.
Qed.

(** An update whose field map has documented keys only leaves the handle of
    every row as it is, whether it returns or throws. *)
Lemma update_keeps_handles (h : string) (data : fields) (d : db) :
  forallb documented_key (map fst data) = true ->
  handles (snd (Company.update h data d)) = handles d.
Proof.
  intros Hn. destruct data as [|kv data]; [reflexivity|].
  rewrite update_unfold by discriminate. rewrite exec_update.
  destruct (negb (distinct (map (column_of jsToSql) (map fst (kv :: data)))));
    [reflexivity|].
  destruct (bind_fields (kv :: data)) as [l|] eqn:Eb; [|reflexivity].
  cbv zeta.
  destruct (forallb row_ok (map (apply_set l) (filter (has_handle h) (companies d)))
            && distinct (map handle (rewrite_rows h (apply_set l) (companies d))));
    [|reflexivity].
  unfold handles. cbn [snd companies].
  apply rewrite_rows_handles. intros c. apply apply_set_handle.
  exact (bind_fields_keep_handle _ _ Hn Eb).
Qed.

(** ** Handles along a run of calls *)

Lemma remove_unfold (h : string) (d : db) :
  Company.remove h d =
  (match filter (has_handle h) (companies d) with
   | [] => Throw (NotFoundError ("No company: " ++ h)%string)
   | _ :: _ => Ok tt
   end,
   {| companies := filter (fun c => negb (has_handle h c)) (companies d);
      issued := issued d ++ [DeleteCompany h] |}).
Proof.
  unfold Company.remove, query_handle, bind, query, ret, throw.
  cbn [exec companies issued].
  destruct (filter (has_handle h) (companies d)); reflexivity.
Qed.

Lemma filter_other_handles (h : string) (t : table) :
  ~ In h (map handle t) -> filter (fun c => negb (has_handle h c)) t = t.
Proof.
  intros Hn. apply forallb_filter_id, forallb_forall. intros c Hin.
  apply negb_true_iff. destruct (has_handle h c) eqn:E; [|reflexivity].
  exfalso. apply Hn. apply has_handle_true in E. subst h. apply in_map, Hin.
Qed.

Lemma remove_handles (h : string) (d : db) :
  forall x, In x (handles (snd (Company.remove h d))) <->
            In x (handles d) /\ x <> h.
Proof.
  intros x. rewrite remove_unfold. unfold handles. cbn [snd companies].
  rewrite !in_map_iff. split.
  - intros [c [Hc Hin]]. apply filter_In in Hin. destruct Hin as [Hin Hh].
    split; [exists c; split; assumption|].
    intros ->. apply negb_true_iff in Hh.
    apply has_handle_true in Hc. rewrite Hc in Hh. discriminate.
  - intros [[c [Hc Hin]] Hx]. exists c. split; [exact Hc|].
    apply filter_In. split; [exact Hin|]. apply negb_true_iff.
    destruct (has_handle h c) eqn:E; [|reflexivity].
    apply has_handle_true in E. congruence.
Qed.

Lemma create_handles (data : company) (d : db) :
  handles (snd (Company.create data d)) = handles d \/
  handles (snd (Company.create data d)) = handles d ++ [handle data].
Proof.
  rewrite create_unfold. unfold handles.
  destruct (filter (has_handle (handle data)) (companies d)); [|left; reflexivity].
  destruct (row_ok data); [right|left; reflexivity].
  cbn [snd companies]. rewrite map_app. reflexivity.
Qed.

Lemma get_companies (h : string) (d : db) :
  companies (snd (Company.get h d)) = companies d.
Proof.
  rewrite get_unfold. destruct (filter (has_handle h) (companies d)); reflexivity.
Qed.

Lemma findAll_companies (qry : Query.t) (d : db) :
  companies (snd (Company.findAll qry d)) = companies d.
Proof.
  unfold Company.findAll, Company.findAllByNameAndEmployeeNum,
    Company.findAllByEmployeeNum, Company.findAllByName, throw.
  repeat match goal with
         | |- context [if ?b then _ else _] => destruct b
         end;
    try reflexivity;
    unfold query; cbn [exec];
    repeat match goal with
           | |- context [if ?b then _ else _] => destruct b
           | |- context [match parse_pattern ?p with _ => _ end] =>
               destruct (parse_pattern p)
           end;
    reflexivity.
Qed.

Lemma step_handles (o : operation) (d : db) :
  (forall h data, o = Update h data ->
                  forallb documented_key (map fst data) = true) ->
  (forall x, In x (handles (step o d)) ->
             In x (handles d) \/ exists data, o = Create data /\ handle data = x) /\
  (forall x, In x (handles d) -> In x (handles (step o d)) \/ o = Remove x) /\
  (keeps_rows o -> handles (step o d) = handles d).
Proof.
  intros Hu. destruct o as [data|qry|h|h data|h]; cbn [step keeps_rows].
  - destruct (create_handles data d) as [E|E]; rewrite E.
    + repeat split; auto; contradiction.
    + repeat split; [| |contradiction].
      * intros x Hx. apply in_app_or in Hx. destruct Hx as [Hx|[<-|[]]]; [auto|].
        right. exists data. split; reflexivity.
      * intros x Hx. left. apply in_or_app. auto.
  - unfold handles. rewrite findAll_companies. repeat split; auto.
  - unfold handles. rewrite get_companies. repeat split; auto.
  - rewrite (update_keeps_handles h data d (Hu h data eq_refl)).
    repeat split; auto.
  - repeat split; [| |contradiction].
    + intros x Hx. apply remove_handles in Hx. left. apply Hx.
    + intros x Hx. destruct (String.eqb_spec x h) as [->|Hne]; [auto|].
      left. apply remove_handles. split; assumption.
Qed.

(** C1, as amended.  Along any run of calls in which every update is given
    a field map whose keys are among the four documented ones (name,
    description, numEmployees, logoUrl): a handle found in the table after
    the run was there before or was given to a create of the run; a handle
    of the table before the run is still there or was given to a remove of
    the run; and when the run has no create and no remove (updates, gets
    and findAlls only), the handles of the rows are, row by row, what they
    were. *)
Theorem handles_along_run (ops : list operation) (d : db) :
  (forall h data, In (Update h data) ops ->
                  forallb documented_key (map fst data) = true) ->
  (forall x, In x (handles (run ops d)) ->
             In x (handles d) \/
             exists data, In (Create data) ops /\ handle data = x) /\
  (forall x, In x (handles d) ->
             In x (handles (run ops d)) \/ In (Remove x) ops) /\
  (Forall keeps_rows ops -> handles (run ops d) = handles d).
Proof.
  revert d. induction ops as [|o ops IH]; intros d Hu.
  - cbn [run fold_left]. repeat split; auto.
  - assert (Hu' : forall h data, In (Update h data) ops ->
                                 forallb documented_key (map fst data) = true).
    { intros h data Hin. apply (Hu h data). right. exact Hin. }
    assert (Ho : forall h data, o = Update h data ->
                                forallb documented_key (map fst data) = true).
    { intros h data ->. apply (Hu h data). left. reflexivity. }
    destruct (IH (step o d) Hu') as [I1 [I2 I3]].
    destruct (step_handles o d Ho) as [S1 [S2 S3]].
    change (run (o :: ops) d) with (run ops (step o d)).
    split; [|split].
    + intros x Hx. destruct (I1 x Hx) as [H|[data [Hin E]]].
      * destruct (S1 x H) as [H'|[data [-> E]]]; [left; exact H'|].
        right. exists data. split; [left; reflexivity|exact E].
      * right. exists data. split; [right; exact Hin|exact E].
    + intros x Hx. destruct (S2 x Hx) as [H| ->].
      * destruct (I2 x H) as [H'|H']; [left; exact H'|right; right; exact H'].
      * right. left. reflexivity.
    + intros Hk. inversion Hk as [|? ? Hko Hkops]; subst.
      rewrite (I3 Hkops). apply S3, Hko.
Qed.

Lemma handles_along_run_witness :
  (forall x, In x (handles (run sample_updates sample)) ->
             In x (handles sample) \/
             exists data, In (Create data) sample_updates /\ handle data = x) /\
  (forall x, In x (handles sample) ->
             In x (handles (run sample_updates sample)) \/
             In (Remove x) sample_updates) /\
  (Forall keeps_rows sample_updates ->
   handles (run sample_updates sample) = handles sample).
Proof.
  apply (handles_along_run sample_updates sample).
  intros h data [H|[H|[H|[]]]]; inversion H; subst; reflexivity.
Defined.

(** C1 as stated fails for a field map with the key [handle], which the
    compiler accepts: the update rewrites the handle of the row. *)
Lemma update_handle_key_counterexample :
  sqlForPartialUpdate [("handle"%string, VStr "apex")] jsToSql =
  Ok ([("handle"%string, 1%nat)], [VStr "apex"]) /\
  fst (Company.update "acme" [("handle"%string, VStr "apex")] sample) =
  Ok {| handle := "apex"; name := "Acme Network"; description := "Anvils";
        numEmployees := Some 42; logoUrl := None |} /\
  handles sample = ["cask"; "acme"; "bolt"]%string /\
  handles (run [Update "acme" [("handle"%string, VStr "apex")]] sample) =
  ["cask"; "apex"; "bolt"]%string.
Proof. repeat split. Qed.

(** ** update: partial update of one row *)

Lemma column_of_injective (a b : string) (va vb : value) :
  field_accepts a va = true -> field_accepts b vb = true ->
  column_of jsToSql a = column_of jsToSql b -> a = b.
Proof.
  intros Ha Hb.
  destruct (field_accepts_cases a va Ha) as [ -> | [ -> | [ -> | -> ] ] ];
    destruct (field_accepts_cases b vb Hb) as [ -> | [ -> | [ -> | -> ] ] ];
    intros E; try reflexivity; vm_compute in E; discriminate E.
Qed.

Lemma partial_fields_columns (data : fields) :
  NoDup (map fst data) ->
  Forall (fun kv => field_accepts (fst kv) (snd kv) = true) data ->
  distinct (map (column_of jsToSql) (map fst data)) = true.
Proof.
  intros Hnd Hacc. apply distinct_NoDup.
  apply NoDup_map_NoDup_ForallPairs; [|exact Hnd].
  intros a b Ha Hb. apply in_map_iff in Ha, Hb.
  destruct Ha as [[ka va] [<- Ha]]. destruct Hb as [[kb vb] [<- Hb]].
  rewrite Forall_forall in Hacc.
  apply (column_of_injective ka kb va vb); [apply (Hacc _ Ha)|apply (Hacc _ Hb)].
Qed.

Lemma apply_set_cons (a : assignment) (l : list assignment) (c : company) :
  apply_set (a :: l) c = apply_set l (assign a c).
Proof. reflexivity. Qed.

(** The assignments of a partial field map write the fields given, keep the
    others, and keep the row constraint. *)
Lemma bind_fields_partial (data : fields) :
  NoDup (map fst data) ->
  Forall (fun kv => field_accepts (fst kv) (snd kv) = true) data ->
  exists l,
    bind_fields data = Some l /\
    forall c,
      (forall k v, In (k, v) data -> field k (apply_set l c) = v) /\
      (forall k, ~ In k (map fst data) -> field k (apply_set l c) = field k c) /\
      (row_ok c = true -> row_ok (apply_set l c) = true).
Proof.
  induction data as [|[k0 v0] data IH]; intros Hnd Hacc.
  - exists []. split; [reflexivity|]. intros c. repeat split; auto.
    intros k v [].
  - cbn [map fst] in Hnd. inversion Hnd as [|? ? Hk0 Hnd']; subst.
    inversion Hacc as [|? ? Ha0 Hacc']; subst. cbn [fst snd] in Ha0.
    destruct (IH Hnd' Hacc') as [l [El Hl]].
    destruct (bind_assignment_field k0 v0 Ha0) as [a [Ea Hstep]].
    exists (a :: l). split; [cbn [bind_fields]; rewrite Ea, El; reflexivity|].
    intros c. rewrite apply_set_cons.
    destruct (Hl (assign a c)) as [L1 [L2 L3]].
    destruct (Hstep c) as [S1 [S2 S3]].
    split; [|split].
    + intros k v [E|Hin].
      * injection E as <- <-. rewrite (L2 k0 Hk0). exact S1.
      * apply L1, Hin.
    + intros k Hk. cbn [map fst In] in Hk.
      rewrite L2 by (intros H; apply Hk; right; exact H).
      apply S2. intros ->. apply Hk. left. reflexivity.
    + intros Hc. apply L3, S3, Hc.
Qed.

Lemma partial_fields_documented (data : fields) :
  Forall (fun kv => field_accepts (fst kv) (snd kv) = true) data ->
  forallb documented_key (map fst data) = true.
Proof.
  induction 1 as [|[k v] data Hkv _ IH]; [reflexivity|].
  cbn [map fst forallb]. rewrite IH, andb_true_r. cbn [fst snd] in Hkv.
  destruct (field_accepts_cases k v Hkv) as [ -> | [ -> | [ -> | -> ] ] ];
    reflexivity.
Qed.

Lemma same_handle_same_row (t : table) (c x : company) :
  NoDup (map handle t) -> In c t -> In x t -> handle x = handle c -> x = c.
Proof.
  intros Hnd Hc Hx E.
  assert (H : In x (filter (has_handle (handle c)) t)).
  { apply filter_In. split; [exact Hx|apply has_handle_true, E]. }
  rewrite (filter_has_handle_one c t Hnd Hc) in H.
  destruct H as [H|[]]. symmetry. exact H.
Qed.

(** C8.  In a table with unique handles, an update of the row [c] with a
    nonempty partial field map, whose values are values of their fields
    (numEmployees null or a value of INTEGER that is >= 0), returns a
    record [c'] and leaves the table
    with [c'] in the place of [c] and every other row as it was; [c'] has
    the handle of [c], each field given has the value given, and each field
    not given has the value it had in [c]. *)
Theorem update_partial (data : fields) (c : company) (d : db) :
  NoDup (handles d) ->
  In c (companies d) ->
  row_ok c = true ->
  partial_fields data ->
  exists c',
    Company.update (handle c) data d =
    (Ok c',
     {| companies := rewrite_rows (handle c) (fun _ => c') (companies d);
        issued := issued d ++ [update_statement (handle c) data] |}) /\
    handle c' = handle c /\
    (forall k v, In (k, v) data -> field k c' = v) /\
    (forall k, ~ In k (map fst data) -> field k c' = field k c) /\
    (forall x, In x (companies d) -> handle x <> handle c ->
               In x (rewrite_rows (handle c) (fun _ => c') (companies d))).
Proof.
  intros Hnd Hin Hok [Hne [Hkeys Hacc]].
  destruct (bind_fields_partial data Hkeys Hacc) as [l [El Hl]].
  destruct (Hl c) as [L1 [L2 L3]].
  assert (Hh : forall x, handle (apply_set l x) = handle x).
  { intros x. apply apply_set_handle.
    apply (bind_fields_keep_handle data l); [|exact El].
    apply partial_fields_documented, Hacc. }
  exists (apply_set l c).
  rewrite update_unfold by exact Hne. rewrite exec_update.
  rewrite (partial_fields_columns data Hkeys Hacc), El. cbn [negb]. cbv zeta.
  rewrite (filter_has_handle_one c (companies d) Hnd Hin). cbn [map forallb].
  rewrite (L3 Hok), (rewrite_rows_handles _ _ _ Hh). cbn [andb].
  assert (Hd : distinct (map handle (companies d)) = true)
    by (apply distinct_NoDup, Hnd).
  rewrite Hd.
  assert (Ht : rewrite_rows (handle c) (apply_set l) (companies d) =
               rewrite_rows (handle c) (fun _ => apply_set l c) (companies d)).
  { unfold rewrite_rows. apply map_ext_in. intros x Hx.
    destruct (has_handle (handle c) x) eqn:E; [|reflexivity].
    apply has_handle_true in E.
    rewrite (same_handle_same_row _ c x Hnd Hin Hx E). reflexivity. }
  rewrite Ht. split; [reflexivity|]. split; [apply Hh|].
  split; [exact L1|]. split; [exact L2|].
  intros x Hx Hne'. unfold rewrite_rows. apply in_map_iff. exists x.
  split; [|exact Hx].
  destruct (has_handle (handle c) x) eqn:E; [|reflexivity].
  apply has_handle_true in E. contradiction.
Qed.

Lemma update_partial_witness :
  exists c',
    Company.update "acme" [("numEmployees"%string, VNum 7)] sample =
    (Ok c',
     {| companies := rewrite_rows "acme" (fun _ => c') [cask; acme; bolt];
        issued := [update_statement "acme" [("numEmployees"%string, VNum 7)]] |}) /\
    handle c' = "acme"%string /\
    (forall k v, In (k, v) [("numEmployees"%string, VNum 7)] -> field k c' = v) /\
    (forall k, ~ In k ["numEmployees"%string] -> field k c' = field k acme) /\
    (forall x, In x [cask; acme; bolt] -> handle x <> "acme"%string ->
               In x (rewrite_rows "acme" (fun _ => c') [cask; acme; bolt])).
Proof.
  apply (update_partial [("numEmployees"%string, VNum 7)] acme sample).
  - apply distinct_NoDup. reflexivity.
  - simpl. right. left. reflexivity.
  - reflexivity.
  - split; [discriminate|]. split.
    + repeat constructor. simpl. intros [].
    + repeat constructor.
Defined.

(** ** Calls on a handle that is not in the table *)



(** ** The constraints of the table are kept by every call *)

Lemma filter_handles_NoDup (f : company -> bool) (t : table) :
  NoDup (map handle t) -> NoDup (map handle (filter f t)).
Proof.
  induction t as [|x t IH]; intros Hnd; [constructor|].
  inversion Hnd as [|? ? Hx Hnd']; subst. cbn [filter].
  destruct (f x); [|apply IH, Hnd'].
  cbn [map]. constructor; [|apply IH, Hnd'].
  intros Hin. apply Hx. apply in_map_iff in Hin. destruct Hin as [c [E Hin]].
  apply filter_In in Hin. rewrite <- E. apply in_map, Hin.
Qed.

Lemma filter_row_ok (f : company -> bool) (t : table) :
  forallb row_ok t = true -> forallb row_ok (filter f t) = true.
Proof.
  rewrite !forallb_forall. intros H c Hin. apply filter_In in Hin. apply H, Hin.
Qed.

Lemma create_well_formed (data : company) (d : db) :
  well_formed d -> well_formed (snd (Company.create data d)).
Proof.
  intros [Hnd Hok]. rewrite create_unfold.
  destruct (filter (has_handle (handle data)) (companies d)) eqn:E;
    [|split; assumption].
  destruct (row_ok data) eqn:Er; [|split; assumption].
  unfold well_formed, handles. cbn [snd companies]. split.
  - rewrite map_app. cbn [map].
    apply NoDup_app; [exact Hnd|repeat constructor; intros []|].
    intros x Hx [<-|[]].
    destruct (filter_has_handle_cons _ _ Hx) as [c [rest E']].
    rewrite E' in E. discriminate E.
  - rewrite forallb_app, Hok. cbn [forallb]. rewrite Er. reflexivity.
Qed.

Lemma update_well_formed (h : string) (data : fields) (d : db) :
  well_formed d -> well_formed (snd (Company.update h data d)).
Proof.
  intros [Hnd Hok]. destruct data as [|kv data]; [split; assumption|].
  rewrite update_unfold by discriminate. rewrite exec_update.
  destruct (negb (distinct (map (column_of jsToSql) (map fst (kv :: data)))));
    [split; assumption|].
  destruct (bind_fields (kv :: data)) as [l|]; [|split; assumption].
  cbv zeta.
  destruct (forallb row_ok (map (apply_set l) (filter (has_handle h) (companies d)))
            && distinct (map handle (rewrite_rows h (apply_set l) (companies d))))
    eqn:E; [|split; assumption].
  apply andb_true_iff in E. destruct E as [Erows Edist].
  unfold well_formed, handles. cbn [snd companies]. split.
  - apply distinct_NoDup, Edist.
  - rewrite forallb_forall in *. intros x Hx. unfold rewrite_rows in Hx.
    apply in_map_iff in Hx. destruct Hx as [c [<- Hc]].
    destruct (has_handle h c) eqn:Eh; [|apply Hok, Hc].
    apply Erows. apply in_map. apply filter_In. split; assumption.
Qed.

Lemma remove_well_formed (h : string) (d : db) :
  well_formed d -> well_formed (snd (Company.remove h d)).
Proof.
  intros [Hnd Hok]. rewrite remove_unfold. unfold well_formed, handles.
  cbn [snd companies]. split.
  - apply filter_handles_NoDup, Hnd.
  - apply filter_row_ok, Hok.
Qed.

Lemma step_well_formed (o : operation) (d : db) :
  well_formed d -> well_formed (step o d).
Proof.
  intros Hwf. destruct o as [data|qry|h|h data|h]; cbn [step].
  - apply create_well_formed, Hwf.
  - unfold well_formed, handles. rewrite findAll_companies. exact Hwf.
  - unfold well_formed, handles. rewrite get_companies. exact Hwf.
  - apply update_well_formed, Hwf.
  - apply remove_well_formed, Hwf.
Qed.

Lemma run_well_formed (ops : list operation) (d : db) :
  well_formed d -> well_formed (run ops d).
Proof.
  revert d. induction ops as [|o ops IH]; intros d Hwf; [exact Hwf|].
  change (run (o :: ops) d) with (run ops (step o d)).
  apply IH, step_well_formed, Hwf.
Qed.

(** ** findAll: every branch *)

Lemma falsy_bounds_not_inverted (lo hi : option Z) :
  truthy_number lo = false -> truthy_number hi = false ->
  number_gt lo hi = false.
Proof.
  destruct lo as [a|], hi as [b|]; simpl; try reflexivity.
  intros Ha Hb. apply negb_false_iff in Ha, Hb.
  apply Z.eqb_eq in Ha, Hb. subst. reflexivity.
Qed.

(** X1.  With no name, or the empty name, and no bound other than 0,
    findAll issues the unfiltered query: the rows are all the rows of the
    table, in name order. *)
Theorem findAll_unfiltered (n : option string) (lo hi : option Z) (d : db) :
  truthy_string n = false ->
  truthy_number lo = false ->
  truthy_number hi = false ->
  exists rows,
    Company.findAll (q n lo hi) d = (Ok rows, logged d SelectAll) /\
    Sorted name_le rows /\
    Permutation rows (companies d).
Proof.
  intros Hn Hlo Hhi.
  rewrite findAll_unfold, (falsy_bounds_not_inverted lo hi Hlo Hhi), Hn, Hlo, Hhi.
  cbn [negb andb orb]. rewrite query_SelectAll.
  eexists. split; [reflexivity|].
  split; [apply order_by_name_sorted|apply order_by_name_perm].
Qed.

Lemma findAll_unfiltered_witness :
  exists rows,
    Company.findAll (q (Some EmptyString) None (Some 0)) sample =
    (Ok rows, logged sample SelectAll) /\
    Sorted name_le rows /\
    Permutation rows [cask; acme; bolt].
Proof.
  apply (findAll_unfiltered (Some EmptyString) None (Some 0) sample); reflexivity.
Defined.

(** X2.  With a name that is not empty and made of ASCII characters, a
    table whose names are made of ASCII characters, bounds that are not
    inverted and are values of the type INTEGER of the store, and at least
    one bound other than 0, findAll issues the combined query: the rows are
    the companies whose name matches [%name%] and whose numEmployees is
    present and lies in [[minEmployees || 0, maxEmployees || 1000000]], in
    name order. *)
Theorem findAll_by_name_and_range (n : string) (lo hi : option Z) (d : db) :
  n <> EmptyString ->
  ascii_text n = true ->
  ascii_names d ->
  number_gt lo hi = false ->
  truthy_number lo || truthy_number hi = true ->
  bounds_in_integer lo hi = true ->
  exists rows,
    Company.findAll (q (Some n) lo hi) d =
    (Ok rows,
     logged d (SelectByNameAndEmployeeNum ("%" ++ n ++ "%")
                 (or_number lo 0) (or_number hi 1000000))) /\
    Sorted name_le rows /\
    forall c,
      In c rows <->
      In c (companies d) /\ matches_filter n c = true /\
      employees_in (or_number lo 0) (or_number hi 1000000) c.
Proof.
  intros Hn _ _ Hgt Ht Hr.
  rewrite findAll_unfold, Hgt, Ht, (truthy_string_Some n Hn). cbn [andb].
  unfold Company.findAllByNameAndEmployeeNum, template.
  rewrite query_SelectByNameAndEmployeeNum by exact Hr.
  eexists. split; [reflexivity|]. split; [apply order_by_name_sorted|].
  intros c.
  rewrite order_by_name_In, filter_In, andb_true_iff, employees_between_in.
  tauto.
Qed.

Lemma findAll_by_name_and_range_witness :
  exists rows,
    Company.findAll (q (Some "a") (Some 10) (Some 3000000)) sample =
    (Ok rows, logged sample (SelectByNameAndEmployeeNum "%a%" 10 3000000)) /\
    Sorted name_le rows /\
    forall c,
      In c rows <->
      In c [cask; acme; bolt] /\ matches_filter "a" c = true /\
      employees_in 10 3000000 c.
Proof.
  apply (findAll_by_name_and_range "a" (Some 10) (Some 3000000) sample).
  - discriminate.
  - reflexivity.
  - repeat constructor.
  - reflexivity.
  - reflexivity.
  - reflexivity.
Defined.

Lemma truthy_string_template (n : option string) :
  truthy_string n = true -> n = Some (template n).
Proof. destruct n; [reflexivity|discriminate]. Qed.

(** X3.  With bounds that are not inverted and are values of the type
    INTEGER of the store, and a name without NUL character, findAll
    returns, whatever the filter (special characters included): it issues
    exactly one statement, leaves the table as it is, and returns rows of
    the table in name order. *)
Theorem findAll_returns (n : option string) (lo hi : option Z) (d : db) :
  number_gt lo hi = false ->
  bounds_in_integer lo hi = true ->
  storable_name n = true ->
  exists rows s,
    Company.findAll (q n lo hi) d = (Ok rows, logged d s) /\
    Sorted name_le rows /\
    forall c, In c rows -> In c (companies d).
Proof.
  intros Hgt Hr _. rewrite findAll_unfold, Hgt.
  destruct (truthy_string n) eqn:Hn;
    destruct (truthy_number lo || truthy_number hi) eqn:Hb; cbn [negb andb].
  - unfold Company.findAllByNameAndEmployeeNum.
    rewrite query_SelectByNameAndEmployeeNum by exact Hr.
    eexists. eexists. split; [reflexivity|]. split; [apply order_by_name_sorted|].
    intros c Hc. rewrite order_by_name_In, filter_In in Hc. apply Hc.
  - apply orb_false_iff in Hb. destruct Hb as [-> ->]. cbn [negb andb].
    unfold Company.findAllByName. rewrite query_SelectByName.
    eexists. eexists. split; [reflexivity|]. split; [apply order_by_name_sorted|].
    intros c Hc. rewrite order_by_name_In, filter_In in Hc. apply Hc.
  - unfold Company.findAllByEmployeeNum.
    rewrite query_SelectByEmployeeNum by exact Hr.
    eexists. eexists. split; [reflexivity|]. split; [apply order_by_name_sorted|].
    intros c Hc. rewrite order_by_name_In, filter_In in Hc. apply Hc.
  - rewrite query_SelectAll.
    eexists. eexists. split; [reflexivity|]. split; [apply order_by_name_sorted|].
    intros c Hc. rewrite order_by_name_In in Hc. exact Hc.
Qed.

Lemma findAll_returns_witness :
  exists rows s,
    Company.findAll (q (Some "a\") (Some 5) None) sample = (Ok rows, logged sample s) /\
    Sorted name_le rows /\
    forall c, In c rows -> In c [cask; acme; bolt].
Proof.
  apply (findAll_returns (Some "a\"%string) (Some 5) None sample); reflexivity.
Defined.

(** X4.  The combined filter is the conjunction of the two single filters:
    with a name that is not empty and has no NUL character, bounds that are
    not inverted and are values of the type INTEGER of the store, and at
    least one bound other than 0, a company is returned for the name and
    the bounds together exactly when it is returned for the name alone and
    for the bounds alone. *)
Theorem findAll_combined_is_both (n : string) (lo hi : option Z) (d : db) :
  n <> EmptyString ->
  storable_text n = true ->
  number_gt lo hi = false ->
  truthy_number lo || truthy_number hi = true ->
  bounds_in_integer lo hi = true ->
  exists both byName byRange,
    fst (Company.findAll (q (Some n) lo hi) d) = Ok both /\
    fst (Company.findAll (q (Some n) None None) d) = Ok byName /\
    fst (Company.findAll (q None lo hi) d) = Ok byRange /\
    forall c, In c both <-> In c byName /\ In c byRange.
Proof.
  intros Hn _ Hgt Ht Hr.
  destruct (findAll_name_only n None None d) as [s [E _]]; try reflexivity.
  rewrite E. clear E.
  rewrite !findAll_unfold, Hgt, Ht, (truthy_string_Some n Hn).
  cbn [truthy_string negb andb fst].
  unfold Company.findAllByNameAndEmployeeNum, Company.findAllByEmployeeNum, template.
  rewrite query_SelectByNameAndEmployeeNum, query_SelectByEmployeeNum
    by exact Hr.
  cbn [fst]. eexists. eexists. eexists.
  split; [reflexivity|]. split; [reflexivity|]. split; [reflexivity|].
  intros c. rewrite !order_by_name_In, !filter_In, andb_true_iff. tauto.
Qed.

Lemma findAll_combined_is_both_witness :
  exists both byName byRange,
    fst (Company.findAll (q (Some "net") (Some 10) (Some 100)) sample) = Ok both /\
    fst (Company.findAll (q (Some "net") None None) sample) = Ok byName /\
    fst (Company.findAll (q None (Some 10) (Some 100)) sample) = Ok byRange /\
    forall c, In c both <-> In c byName /\ In c byRange.
Proof.
  apply (findAll_combined_is_both "net" (Some 10) (Some 100) sample).
  - discriminate.
  - reflexivity.
  - reflexivity.
  - reflexivity.
  - reflexivity.
Defined.

Lemma lower_empty (n : string) : lower n = EmptyString <-> n = EmptyString.
Proof. destruct n; simpl; split; intros H; try reflexivity; discriminate H. Qed.

Lemma matches_filter_lower (n n' : string) (c : company) :
  lower n = lower n' -> matches_filter n c = matches_filter n' c.
Proof.
  intros E. unfold matches_filter, ilike.
  rewrite !lower_filter_pattern, E. reflexivity.
Qed.

(** X5.  The letter case of the name filter does not matter: two names that
    differ only in letter case give the same rows, with any bounds. *)
Theorem findAll_name_case (n n' : string) (lo hi : option Z) (d : db) :
  lower n = lower n' ->
  fst (Company.findAll (q (Some n) lo hi) d) =
  fst (Company.findAll (q (Some n') lo hi) d).
Proof.
  intros E.
  assert (Ht : truthy_string (Some n) = truthy_string (Some n')).
  { cbn [truthy_string]. f_equal.
    destruct (String.eqb_spec n EmptyString) as [Hn|Hn];
      destruct (String.eqb_spec n' EmptyString) as [Hn'|Hn']; try reflexivity.
    - exfalso. apply Hn'. apply lower_empty. rewrite <- E. apply lower_empty, Hn.
    - exfalso. apply Hn. apply lower_empty. rewrite E. apply lower_empty, Hn'. }
  assert (Hf : filter (matches_filter n) (companies d) =
               filter (matches_filter n') (companies d)).
  { apply filter_ext. intros c. apply matches_filter_lower, E. }
  rewrite !findAll_unfold, Ht.
  destruct (number_gt lo hi); [reflexivity|].
  destruct (truthy_string (Some n'));
    destruct (truthy_number lo || truthy_number hi) eqn:Hb; cbn [negb andb];
    try reflexivity.
  - unfold Company.findAllByNameAndEmployeeNum, template.
    rewrite !query_SelectByNameAndEmployeeNum_cases.
    destruct (in_integer (or_number lo 0) && in_integer (or_number hi 1000000));
      [|reflexivity].
    cbn [fst]. do 2 f_equal.
    apply filter_ext. intros c. rewrite (matches_filter_lower n n' c E).
    reflexivity.
  - apply orb_false_iff in Hb. destruct Hb as [-> ->]. cbn [negb andb].
    unfold Company.findAllByName, template. rewrite !query_SelectByName.
    cbn [fst]. rewrite Hf. reflexivity.
Qed.

Lemma findAll_name_case_witness :
  fst (Company.findAll (q (Some "NeT") None (Some 100)) sample) =
  fst (Company.findAll (q (Some "net") None (Some 100)) sample).
Proof.
  apply (findAll_name_case "NeT" "net" None (Some 100) sample). reflexivity.
Defined.

(** ** get, create and remove together *)

(** X6.  In a table with unique handles, get with the handle of a stored
    row returns that row, and leaves the table as it is. *)
Theorem get_stored_row (c : company) (d : db) :
  NoDup (handles d) ->
  In c (companies d) ->
  Company.get (handle c) d = (Ok c, logged d (SelectCompany (handle c))).
Proof.
  intros Hnd Hin. rewrite get_unfold.
  rewrite (filter_has_handle_one c (companies d) Hnd Hin). reflexivity.
Qed.

Lemma get_stored_row_witness :
  Company.get "bolt" sample = (Ok bolt, logged sample (SelectCompany "bolt")).
Proof.
  apply (get_stored_row bolt sample).
  - apply distinct_NoDup. reflexivity.
  - simpl. right. right. left. reflexivity.
Defined.

Lemma filter_has_handle_empty (h : string) (t : table) :
  filter (has_handle h) t = [] -> ~ In h (map handle t).
Proof.
  intros E Hin. destruct (filter_has_handle_cons h t Hin) as [c [rest E']].
  rewrite E' in E. discriminate E.
Qed.

(** X7.  A call that throws leaves the table as it was: a create that
    finds a duplicate or is rejected by the store, a findAll with inverted
    bounds, a get, an update or a remove that finds no row, and an update
    with no field or one the store rejects. *)
Theorem throw_keeps_table (o : operation) (d : db) :
  throws o d = true -> companies (step o d) = companies d.
Proof.
  destruct o as [data|qry|h|h data|h]; cbn [throws step]; intros Ht.
  - rewrite create_unfold in *.
    destruct (filter (has_handle (handle data)) (companies d)); [|reflexivity].
    destruct (row_ok data); [discriminate Ht|reflexivity].
  - apply findAll_companies.
  - apply get_companies.
  - destruct data as [|kv data]; [reflexivity|].
    rewrite update_unfold in * by discriminate. rewrite exec_update in *.
    destruct (negb (distinct (map (column_of jsToSql) (map fst (kv :: data)))));
      [reflexivity|].
    destruct (bind_fields (kv :: data)) as [l|]; [|reflexivity].
    cbv zeta in *.
    destruct (forallb row_ok (map (apply_set l) (filter (has_handle h) (companies d)))
              && distinct (map handle (rewrite_rows h (apply_set l) (companies d))));
      [|reflexivity].
    cbn [fst snd companies] in *.
    destruct (filter (has_handle h) (companies d)) as [|x rest] eqn:E;
      [|discriminate Ht].
    apply rewrite_rows_absent, filter_has_handle_empty, E.
  - rewrite remove_unfold in *. cbn [fst snd companies] in *.
    destruct (filter (has_handle h) (companies d)) as [|x rest] eqn:E;
      [|discriminate Ht].
    apply filter_other_handles, filter_has_handle_empty, E.
Qed.

Lemma throw_keeps_table_witness :
  companies (step (Update "zinc" [("name"%string, VStr "Zinc")]) sample) =
  companies sample.
Proof.
  apply (throw_keeps_table (Update "zinc" [("name"%string, VStr "Zinc")]) sample).
  reflexivity.
Defined.

(** X8.  A remove with a handle of the table returns, drops the rows with
    that handle and keeps every other row; a second remove with the same
    handle throws the not-found error. *)
Theorem remove_twice (h : string) (d : db) :
  In h (handles d) ->
  exists d',
    Company.remove h d = (Ok tt, d') /\
    (forall c, In c (companies d') <-> In c (companies d) /\ handle c <> h) /\
    Company.remove h d' =
    (Throw (NotFoundError ("No company: " ++ h)%string),
     logged d' (DeleteCompany h)).
Proof.
  intros Hin. rewrite remove_unfold.
  destruct (filter_has_handle_cons h _ Hin) as [x [rest E]]. rewrite E.
  eexists. split; [reflexivity|]. cbn [companies].
  assert (Hc : forall c,
             In c (filter (fun c => negb (has_handle h c)) (companies d)) <->
             In c (companies d) /\ handle c <> h).
  { intros c. rewrite filter_In, negb_true_iff. split; intros [H1 H2]; split; auto.
    - intros Hh. apply has_handle_true in Hh. rewrite Hh in H2. discriminate.
    - destruct (has_handle h c) eqn:Eh; [|reflexivity].
      apply has_handle_true in Eh. contradiction. }
  split; [exact Hc|].
  assert (Hn : ~ In h (map handle
                         (filter (fun c => negb (has_handle h c)) (companies d)))).
  { intros H. apply in_map_iff in H. destruct H as [c [Hh Hc']].
    apply Hc in Hc'. destruct Hc' as [_ Hne]. contradiction. }
  rewrite remove_unfold. cbn [companies issued].
  rewrite (filter_has_handle_nil h _ Hn), (filter_other_handles h _ Hn).
  reflexivity.
Qed.

Lemma remove_twice_witness :
  exists d',
    Company.remove "acme" sample = (Ok tt, d') /\
    (forall c, In c (companies d') <->
               In c [cask; acme; bolt] /\ handle c <> "acme"%string) /\
    Company.remove "acme" d' =
    (Throw (NotFoundError "No company: acme"), logged d' (DeleteCompany "acme")).
Proof.
  apply (remove_twice "acme" sample). simpl. right. left. reflexivity.
Defined.

Lemma create_returned (data : company) (d d' : db) (r : option company) :
  Company.create data d = (Ok r, d') ->
  ~ In (handle data) (handles d) /\
  r = Some data /\
  d' = {| companies := companies d ++ [data];
          issued := issued d ++ [SelectHandle (handle data)]
                      ++ [InsertCompany data] |} /\
  row_ok data = true.
Proof.
  intros H. rewrite create_unfold in H.
  destruct (filter (has_handle (handle data)) (companies d)) eqn:E;
    [|discriminate H].
  destruct (row_ok data); [|discriminate H].
  injection H as <- <-.
  split; [apply filter_has_handle_empty, E|]. repeat split.
Qed.

(** X9.  After a create that returned, a second create with the same handle
    throws the duplicate error and leaves the table as the first one left
    it, whatever the other fields of the second record. *)
Theorem create_twice (data other : company) (d d' : db) (r : option company) :
  Company.create data d = (Ok r, d') ->
  handle other = handle data ->
  Company.create other d' =
  (Throw (BadRequestError ("Duplicate company: " ++ handle data)%string),
   logged d' (SelectHandle (handle data))).
Proof.
  intros Hc Hh. destruct (create_returned data d d' r Hc) as [Hn [_ [-> _]]].
  rewrite create_unfold, Hh. cbn [companies issued].
  rewrite (filter_has_handle_fresh data (companies d) Hn). reflexivity.
Qed.

Lemma create_twice_witness :
  Company.create
    {| handle := "dune"; name := "Dune 2"; description := "More sand";
       numEmployees := None; logoUrl := None |}
    (snd (Company.create dune sample)) =
  (Throw (BadRequestError "Duplicate company: dune"),
   logged (snd (Company.create dune sample)) (SelectHandle "dune")).
Proof.
  apply (create_twice dune
           {| handle := "dune"; name := "Dune 2"; description := "More sand";
              numEmployees := None; logoUrl := None |}
           sample (snd (Company.create dune sample)) (Some dune)).
  - reflexivity.
  - reflexivity.
Defined.

(** X10.  A create that returned, followed by a remove with the handle of
    the record created, gives back the table as it was before the create,
    row by row. *)
Theorem create_then_remove (data : company) (d d' : db) (r : option company) :
  Company.create data d = (Ok r, d') ->
  fst (Company.remove (handle data) d') = Ok tt /\
  companies (snd (Company.remove (handle data) d')) = companies d.
Proof.
  intros Hc. destruct (create_returned data d d' r Hc) as [Hn [_ [-> _]]].
  rewrite remove_unfold. cbn [fst snd companies issued].
  rewrite (filter_has_handle_fresh data (companies d) Hn).
  split; [reflexivity|].
  rewrite filter_app, (filter_other_handles _ _ Hn). cbn [filter].
  assert (E : has_handle (handle data) data = true)
    by (apply has_handle_true; reflexivity).
  rewrite E. cbn [negb]. apply app_nil_r.
Qed.

Lemma create_then_remove_witness :
  fst (Company.remove "dune" (snd (Company.create dune sample))) = Ok tt /\
  companies (snd (Company.remove "dune" (snd (Company.create dune sample)))) =
  [cask; acme; bolt].
Proof.
  apply (create_then_remove dune sample (snd (Company.create dune sample))
           (Some dune)).
  reflexivity.
Defined.

(** X11.  A removed handle is free again: after a create that returned and
    a remove with the handle of the record created, the same create
    returns the same record again and leaves the table that the first
    create left. *)
Theorem remove_then_create (data : company) (d d' : db) (r : option company) :
  Company.create data d = (Ok r, d') ->
  fst (Company.create data (snd (Company.remove (handle data) d'))) = Ok r /\
  companies (snd (Company.create data (snd (Company.remove (handle data) d')))) =
  companies d'.
Proof.
  intros Hc.
  destruct (create_returned data d d' r Hc) as [Hn [-> [-> Hok]]].
  rewrite remove_unfold. cbn [fst snd companies issued].
  assert (Ef : filter (fun c => negb (has_handle (handle data) c))
                 (companies d ++ [data]) = companies d).
  { rewrite filter_app, (filter_other_handles _ _ Hn). cbn [filter].
    assert (E : has_handle (handle data) data = true)
      by (apply has_handle_true; reflexivity).
    rewrite E. cbn [negb]. apply app_nil_r. }
  rewrite Ef, create_unfold. cbn [companies issued].
  rewrite (filter_has_handle_nil _ _ Hn), Hok. split; reflexivity.
Qed.

Lemma remove_then_create_witness :
  fst (Company.create dune
         (snd (Company.remove "dune" (snd (Company.create dune sample))))) =
  Ok (Some dune) /\
  companies
    (snd (Company.create dune
            (snd (Company.remove "dune" (snd (Company.create dune sample)))))) =
  companies (snd (Company.create dune sample)).
Proof.
  apply (remove_then_create dune sample (snd (Company.create dune sample))
           (Some dune)).
  reflexivity.
Defined.

(** ** update: what it returns and what it binds *)

(** X12.  When an update returns a record, a get with the handle of that
    record returns the same record; and when the keys of the field map are
    among the four documented ones, that handle is the one given to the
    update. *)
Theorem update_then_get (h : string) (data : fields) (d d' : db) (c' : company) :
  Company.update h data d = (Ok c', d') ->
  Company.get (handle c') d' =
  (Ok c', logged d' (SelectCompany (handle c'))) /\
  (forallb documented_key (map fst data) = true -> handle c' = h).
Proof.
  intros Hu. destruct data as [|kv data]; [discriminate Hu|].
  rewrite update_unfold in Hu by discriminate. rewrite exec_update in Hu.
  destruct (negb (distinct (map (column_of jsToSql) (map fst (kv :: data)))));
    [discriminate Hu|].
  destruct (bind_fields (kv :: data)) as [l|] eqn:Eb; [|discriminate Hu].
  cbv zeta in Hu.
  destruct (forallb row_ok (map (apply_set l) (filter (has_handle h) (companies d)))
            && distinct (map handle (rewrite_rows h (apply_set l) (companies d))))
    eqn:E; [|discriminate Hu].
  apply andb_true_iff in E. destruct E as [_ Edist].
  destruct (filter (has_handle h) (companies d)) as [|x rest] eqn:Ef;
    [discriminate Hu|].
  cbn [map] in Hu. injection Hu as <- <-.
  assert (Hx : In x (companies d) /\ has_handle h x = true).
  { apply filter_In. rewrite Ef. left. reflexivity. }
  destruct Hx as [Hx Hhx].
  split.
  - rewrite get_unfold. cbn [companies issued].
    rewrite (filter_has_handle_one (apply_set l x)
               (rewrite_rows h (apply_set l) (companies d))).
    + reflexivity.
    + apply distinct_NoDup, Edist.
    + unfold rewrite_rows. apply in_map_iff. exists x.
      rewrite Hhx. split; [reflexivity|exact Hx].
  - intros Hn. rewrite apply_set_handle.
    + apply has_handle_true, Hhx.
    + exact (bind_fields_keep_handle _ _ Hn Eb).
Qed.

Lemma update_then_get_witness :
  Company.get "acme"
    (snd (Company.update "acme" [("logoUrl"%string, VStr "a.png")] sample)) =
  (Ok {| handle := "acme"; name := "Acme Network"; description := "Anvils";
         numEmployees := Some 42; logoUrl := Some "a.png" |},
   logged (snd (Company.update "acme" [("logoUrl"%string, VStr "a.png")] sample))
     (SelectCompany "acme")).
Proof.
  apply (update_then_get "acme" [("logoUrl"%string, VStr "a.png")] sample
           (snd (Company.update "acme" [("logoUrl"%string, VStr "a.png")] sample))
           {| handle := "acme"; name := "Acme Network"; description := "Anvils";
              numEmployees := Some 42; logoUrl := Some "a.png" |}).
  reflexivity.
Defined.

Lemma fragments_nth (js : list (string * string)) (keys : list string)
  (n i : nat) (k : string) :
  nth_error keys i = Some k ->
  nth_error (fragments js keys n) i = Some (column_of js k, (n + i)%nat).
Proof.
  revert n i. induction keys as [|k0 keys IH]; intros n i H.
  - destruct i; discriminate H.
  - destruct i as [|i]; cbn [nth_error fragments] in *.
    + injection H as ->. rewrite Nat.add_0_r. reflexivity.
    + rewrite (IH (S n) i H). rewrite Nat.add_succ_r. reflexivity.
Qed.

Lemma fragments_numbers (js : list (string * string)) (keys : list string)
  (n : nat) (col : string) (j : nat) :
  In (col, j) (fragments js keys n) ->
  (n <= j < n + List.length keys)%nat.
Proof.
  revert n. induction keys as [|k0 keys IH]; intros n H; [destruct H|].
  cbn [fragments List.length] in *. destruct H as [H|H].
  - injection H as _ <-. lia.
  - specialize (IH (S n) H). lia.
Qed.

(** X13.  The placeholders of the statement that update issues line up with
    its bind values: the fragment of the i-th field carries the number i
    (from 1) and that number is bound to the value of the field; the
    placeholder of the WHERE clause is bound to the handle, and no fragment
    carries its number. *)
Theorem update_placeholders (h : string) (data : fields) (d : db) :
  data <> [] ->
  exists setCols handleVarIdx params,
    issued (snd (Company.update h data d)) =
    issued d ++ [UpdateCompany setCols handleVarIdx params] /\
    param params handleVarIdx = Some (VStr h) /\
    (forall i k v,
       nth_error data i = Some (k, v) ->
       nth_error setCols i = Some (column_of jsToSql k, S i) /\
       param params (S i) = Some v) /\
    (forall col j, In (col, j) setCols -> j <> handleVarIdx).
Proof.
  intros Hne.
  exists (fragments jsToSql (map fst data) 1),
    (List.length (map snd data) + 1)%nat, (map snd data ++ [VStr h]).
  split; [|split; [|split]].
  - rewrite update_unfold by exact Hne. fold (update_statement h data).
    destruct (exec (update_statement h data) (companies d)) as [[rows t']|];
      reflexivity.
  - apply param_last.
  - intros i k v Hi. split.
    + rewrite (fragments_nth jsToSql (map fst data) 1 i k).
      * reflexivity.
      * rewrite nth_error_map, Hi. reflexivity.
    + cbn [param]. rewrite nth_error_app1.
      * rewrite nth_error_map, Hi. reflexivity.
      * rewrite length_map. apply nth_error_Some. rewrite Hi. discriminate.
  - intros col j Hin. apply fragments_numbers in Hin.
    rewrite !length_map in *. lia.
Qed.

Lemma update_placeholders_witness :
  exists setCols handleVarIdx params,
    issued (snd (Company.update "acme"
                   [("numEmployees"%string, VNum 7); ("logoUrl"%string, VNull)]
                   sample)) =
    issued sample ++ [UpdateCompany setCols handleVarIdx params] /\
    param params handleVarIdx = Some (VStr "acme") /\
    (forall i k v,
       nth_error [("numEmployees"%string, VNum 7); ("logoUrl"%string, VNull)] i =
       Some (k, v) ->
       nth_error setCols i = Some (column_of jsToSql k, S i) /\
       param params (S i) = Some v) /\
    (forall col j, In (col, j) setCols -> j <> handleVarIdx).
Proof.
  apply (update_placeholders "acme"
           [("numEmployees"%string, VNum 7); ("logoUrl"%string, VNull)] sample).
  discriminate.
Defined.
